(** * NovaFlow voice agent: the per-connection streaming orchestrator

    A shallow embedding of [src/main.py]: credential resolution
    ([get_api_key]), the settings reset endpoint ([reset_settings]), the web
    search helper ([tavily_search]), the reply dispatcher
    ([stream_gemini_response]) with its speech relay, and the websocket
    session loop ([ws_handler]).

    Conventions of the model.
    - A Python [str] is a [string] of 7-bit characters; characters above 127
      are outside the model (Python's [\w], [\s] and [lower] are Unicode
      aware there).
    - A [datetime] is an integer count of microseconds, the resolution of
      [datetime.now()].  [(t1 - t0).total_seconds() * 1000 >= 100] holds
      exactly when [t1 - t0 >= 100000] microseconds, and likewise for the
      1000 ms bound, so the comparisons are written on microseconds.
    - External collaborators (process environment, search, language model,
      speech synthesis, webhook, the transcriber's [stream]) are oracles of a
      [World] record; what the code does to the outside is a trace of
      [Effect]s, in program order.
    - Sends to the client and the transcriber's [close] are taken to return
      normally.
    - The transcriber's callbacks ([forward_event]) run beside the loop; they
      send messages and call the dispatcher but touch neither the audio
      buffer, the timers nor the transcriber, and are not part of the
      session model. *)

From Stdlib Require Import ZArith QArith List Ascii String Strings.Byte DecimalString Lia Bool.
From Stdlib Require DecimalPos DecimalN.
From Stdlib Require Import Sorted.
From stdpp Require Import base gmap strings list.
Import ListNotations.

Local Open Scope Z_scope.

(** ** Python string operations used by the source *)

Module PyStr.

(** [str.isspace] on one 7-bit character: TAB, LF, VT, FF, CR,
    FS, GS, RS, US and the space. It is also what [\s] matches. *)
Definition is_space (c : ascii) : bool :=
  let n := N_of_ascii c in
  ((9 <=? n) && (n <=? 13) || (28 <=? n) && (n <=? 32))%N.

Definition is_upper (c : ascii) : bool :=
  let n := N_of_ascii c in ((65 <=? n) && (n <=? 90))%N.

Definition is_lower (c : ascii) : bool :=
  let n := N_of_ascii c in ((97 <=? n) && (n <=? 122))%N.

Definition is_digit (c : ascii) : bool :=
  let n := N_of_ascii c in ((48 <=? n) && (n <=? 57))%N.

(** [\w] on one 7-bit character: letters, digits and the underscore. *)
Definition is_word (c : ascii) : bool :=
  is_upper c || is_lower c || is_digit c || (N_of_ascii c =? 95)%N.

Definition lower_char (c : ascii) : ascii :=
  if is_upper c then ascii_of_N (N_of_ascii c + 32) else c.

(** [s.lower()] *)
Fixpoint lower (s : string) : string :=
  match s with
  | EmptyString => EmptyString
  | String c s' => String (lower_char c) (lower s')
  end.

(** [s.startswith(p)] *)
Fixpoint startswith (p s : string) : bool :=
  match p, s with
  | EmptyString, _ => true
  | String _ _, EmptyString => false
  | String a p', String b s' => if Ascii.eqb a b then startswith p' s' else false
  end.

(** [needle in haystack] *)
Fixpoint contains (needle haystack : string) : bool :=
  startswith needle haystack
  || match haystack with
     | EmptyString => false
     | String _ h' => contains needle h'
     end.

(** [s[n:]] and [s[:n]] for a non-negative constant [n] *)
Fixpoint drop (n : nat) (s : string) : string :=
  match n, s with
  | O, _ => s
  | S _, EmptyString => EmptyString
  | S n', String _ s' => drop n' s'
  end.

Fixpoint take (n : nat) (s : string) : string :=
  match n, s with
  | O, _ => EmptyString
  | S _, EmptyString => EmptyString
  | S n', String c s' => String c (take n' s')
  end.

Fixpoint lstrip (s : string) : string :=
  match s with
  | EmptyString => EmptyString
  | String c s' => if is_space c then lstrip s' else s
  end.

(** Trailing white space removed: a character is kept when it is not
    white space or something is kept to its right. *)
Fixpoint rstrip (s : string) : string :=
  match s with
  | EmptyString => EmptyString
  | String c s' =>
      match rstrip s' with
      | EmptyString => if is_space c then EmptyString else String c EmptyString
      | r => String c r
      end
  end.

(** [s.strip()] *)
Definition strip (s : string) : string := rstrip (lstrip s).

(** [s.split()]: the maximal runs of characters that are not white space.
    [cur] is the run being read, in reverse. *)
Fixpoint split_go (cur : option string) (s : string) : list string :=
  match s with
  | EmptyString => option_list (String.rev <$> cur)
  | String c s' =>
      if is_space c
      then option_list (String.rev <$> cur) ++ split_go None s'
      else split_go (Some (String c (default EmptyString cur))) s'
  end.

Definition split (s : string) : list string := split_go None s.

(** [re.sub(r'[^\w\s]', '', s)]: every character that is neither a word
    character nor white space is deleted. *)
Fixpoint strip_punct (s : string) : string :=
  match s with
  | EmptyString => EmptyString
  | String c s' =>
      if is_word c || is_space c then String c (strip_punct s') else strip_punct s'
  end.

(** [str(n)] for a natural number *)
Definition of_nat (n : nat) : string := NilEmpty.string_of_uint (Nat.to_uint n).

(** [str(z)] for an integer *)
Definition of_Z (z : Z) : string := NilEmpty.string_of_int (Z.to_int z).

Definition nonempty (s : string) : bool :=
  match s with EmptyString => false | String _ _ => true end.

End PyStr.

(** ** JSON values: what the settings dictionary holds *)

#[warnings="-register-all"]
Inductive JValue : Type :=
| JNull
| JBool (b : bool)
| JInt (z : Z)
| JFloat (q : Q)
| JStr (s : string)
| JArr (l : list JValue)
| JObj (l : list (string * JValue)).

(** Python truth value of a decoded JSON value *)
Definition truthy (v : JValue) : bool :=
  match v with
  | JNull => false
  | JBool b => b
  | JInt z => negb (z =? 0)
  | JFloat q => negb (Qnum q =? 0)
  | JStr s => PyStr.nonempty s
  | JArr l => match l with [] => false | _ => true end
  | JObj l => match l with [] => false | _ => true end
  end.

(** ** Audio configuration *)

Definition SAMPLE_RATE : Z := 44100.
Definition MIN_AUDIO_DURATION_MS : Z := 1000.
(** [int(SAMPLE_RATE * MIN_AUDIO_DURATION_MS / 1000 * 2)]; the division is
    exact for these constants. *)
Definition MIN_BUFFER_SIZE : Z := SAMPLE_RATE * MIN_AUDIO_DURATION_MS / 1000 * 2.

Definition CONTEXT_ID : string := "storyteller_context_27".
Definition MURF_WS_URL_DEFAULT : string := "wss://api.murf.ai/v1/speech/stream-input".

(** ** Process-wide state *)

(** The literal that initialises [USER_SETTINGS] and that [reset_settings]
    assigns again. *)
Definition default_settings : gmap string JValue :=
  list_to_map
    [ ("voiceId", JStr "en-IN-alia");
      ("playbackSpeed", JFloat 1.0);
      ("conversationType", JStr "casual");
      ("micSensitivity", JInt 50);
      ("audioQuality", JStr "medium");
      ("autoSaveHistory", JBool true);
      ("includeKnowledgeBase", JBool true);
      ("enableSearch", JBool true);
      ("maxSearchResults", JInt 3);
      ("enableSound", JBool true);
      ("notificationDuration", JInt 4);
      ("theme", JStr "dark");
      ("accentColor", JStr "orange") ].

(** The module globals. [KNOWLEDGE_BASE] is a dict read in insertion order,
    so it is kept as the list of its items. *)
Record Store : Type := {
  USER_API_KEYS : gmap string string;
  USER_OVERRIDE_ENV : bool;
  USER_SETTINGS : gmap string JValue;
  KNOWLEDGE_BASE : list (string * string)
}.

Definition initial_store : Store :=
  {| USER_API_KEYS := ∅; USER_OVERRIDE_ENV := false;
     USER_SETTINGS := default_settings; KNOWLEDGE_BASE := [] |}.

(** [USER_SETTINGS.get(key, dflt)] *)
Definition setting (st : Store) (key : string) (dflt : JValue) : JValue :=
  default dflt (USER_SETTINGS st !! key).

(** ** Messages, effects and collaborators *)

(** [str(e)] of a raised exception *)
Definition Exn : Type := string.

Inductive result (A : Type) : Type :=
| Ok (a : A)
| Raise (e : Exn).
Arguments Ok {A} a.
Arguments Raise {A} e.

(** The [data] of an [error] message. [TooShort] stands for
    [f"Recording too short ({elapsed_ms:.1f}ms). Please speak for at least 1 second."]
    and keeps the elapsed time in microseconds instead of its rendering. *)
Inductive ErrData : Type :=
| Text (s : string)
| TooShort (elapsed_us : Z).

(** Server-to-client JSON messages, by their [type] field *)
Inductive ClientMsg : Type :=
| user_message (data : string) (is_final : bool)
| error (data : ErrData)
| response (data : string)
| search (data : string)
| audio (data : string) (is_final : bool)
| speak_audio (data : string) (is_final : bool)
| sound_alert (data : string)
| zapier (data : string).

Inductive SystemInstruction : Type :=
| Casual      (* "You are a friendly and approachable assistant. ..." *)
| Formal      (* "You are a professional assistant. ..." *)
| Technical   (* "You are a technical expert. ..." *)
| CalmGuide.  (* "You are a wise and gentle guide. ..." *)

Inductive Effect : Type :=
| Send (m : ClientMsg)                 (* await websocket.send_json(m) *)
| SendTask (m : ClientMsg)             (* asyncio.create_task(websocket.send_json(m)) *)
| SendText (s : string)                (* await websocket.send_text(s) *)
| WsAccept
| WsClose
| BridgeConnect                        (* transcriber.connect() *)
| BridgeStream (chunk : list byte)     (* transcriber.stream(chunk) *)
| BridgeClose                          (* transcriber.close() *)
| SaveHistory (chat_id user_query ai_response : string)
| SearchRequest (api_key query : string) (max_results : JValue)
| ModelRequest (api_key : string) (sys : SystemInstruction) (parts : list string)
| MurfRequest (api_key : string) (voiceId speed : JValue) (text : string)
                                       (* connected; init, voice_config and text sent *)
| Webhook (url payload : string)         (* the post to the webhook went through *)
| WriteSettings (settings : gmap string JValue).

Record SearchResult : Type := { title : string; content : string; url : string }.

(** What the search service answers: the call raises (transport, decoding,
    a result without [title], [content] or [url]), or it returns a status
    and, for status 200, the list under ["results"]. *)
Inductive TavilyOutcome : Type :=
| TavilyRaise (e : Exn)
| TavilyStatus (status : Z) (results : list SearchResult).

(** One [murf_ws.recv()] under its bounded wait: a decoded frame (with the
    defaults of [.get("audio", "")] and [.get("is_final", False)] applied),
    the wait running out, or another exception (connection closed, frame
    that does not decode). When the list of events is used up nothing more
    arrives, so the next wait runs out. *)
Inductive MurfEvent : Type :=
| MurfFrame (base64_audio : string) (is_final : bool)
| MurfTimeout
| MurfBad (e : Exn).

Inductive MurfOutcome : Type :=
| MurfFail (e : Exn)                   (* connecting or sending raised *)
| MurfStream (events : list MurfEvent).

Record World : Type := {
  environ : gmap string string;                                   (* os.getenv *)
  tavily : string → string → JValue → TavilyOutcome;
  gemini : string → SystemInstruction → list string → result string;
  murf : string → JValue → JValue → string → MurfOutcome;
  zapier_post : string → string → result Z;
  bridge_connect : option Exn;                                    (* transcriber.connect() raises *)
  bridge_stream : list byte → option Exn;                         (* transcriber.stream(b) raises *)
  settings_write : gmap string JValue → option Exn                (* writing settings.json raises *)
}.

(** ** Effects in program order, with exceptions *)

Definition M (A : Type) : Type := (list Effect * result A)%type.

Definition ret {A} (a : A) : M A := ([], Ok a).

Definition bind {A B} (m : M A) (k : A → M B) : M B :=
  match m with
  | (tr, Ok a) => let '(tr', r) := k a in (tr ++ tr', r)
  | (tr, Raise e) => (tr, Raise e)
  end.

Definition emit (e : Effect) : M unit := ([e], Ok tt).

Definition raise {A} (e : Exn) : M A := ([], Raise e).

(** [try: m  except Exception as e: h e] *)
Definition try_except {A} (m : M A) (h : Exn → M A) : M A :=
  match m with
  | (tr, Ok a) => (tr, Ok a)
  | (tr, Raise e) => let '(tr', r) := h e in (tr ++ tr', r)
  end.

Definition trace {A} (m : M A) : list Effect := fst m.
Definition outcome {A} (m : M A) : result A := snd m.

Global Instance M_ret : MRet M := @ret.
Global Instance M_bind : MBind M := fun A B k m => bind m k.

(** [if b: m] with no [else] *)
Definition when (b : bool) (m : M unit) : M unit := if b then m else ret tt.

(** ** [get_api_key] *)

Definition no_key_msg (key_name : string) : string :=
  "No " +:+ key_name +:+ " found in .env or user-provided keys".

Definition get_api_key (st : Store) (w : World) (key_name : string)
    (websocket : bool) : M string :=
  let env_key := default "" (environ w !! key_name) in
  let user_key := default "" (USER_API_KEYS st !! key_name) in
  if USER_OVERRIDE_ENV st && PyStr.nonempty user_key then ret user_key
  else if PyStr.nonempty env_key then ret env_key
  else if PyStr.nonempty user_key then ret user_key
  else
    when websocket (emit (SendTask (error (Text (no_key_msg key_name)))));;
    ret "".

(** ** [reset_settings] *)

Inductive Reply : Type :=
| message (s : string)
| error_reply (s : string).

(** [POST /reset_settings]: the new globals, what was written, the JSON
    answer. The globals are assigned before the file is written, so they
    stay reset when the write raises. *)
Definition reset_settings (w : World) (data : gmap string bool) (st : Store)
    : list Effect * Store * Reply :=
  if default false (data !! "reset") then
    let st' := {| USER_API_KEYS := ∅; USER_OVERRIDE_ENV := false;
                  USER_SETTINGS := default_settings;
                  KNOWLEDGE_BASE := KNOWLEDGE_BASE st |} in
    match settings_write w (USER_SETTINGS st') with
    | None => ([WriteSettings (USER_SETTINGS st')], st', message "Settings reset successfully.")
    | Some e => ([], st', error_reply e)
    end
  else ([], st, error_reply "Invalid reset request").

(** ** Speech synthesis relay *)

(** [if base64_audio: await websocket.send_json({"type": tag, ...})] *)
Definition forward (tag : string → bool → ClientMsg) (base64_audio : string)
    (is_final : bool) : M unit :=
  when (PyStr.nonempty base64_audio) (emit (Send (tag base64_audio is_final))).

(** [while not is_final:] each read waits 5 s; a timeout leaves the loop. *)
Fixpoint relay_rest (tag : string → bool → ClientMsg) (events : list MurfEvent)
    : M unit :=
  match events with
  | [] | MurfTimeout :: _ => ret tt
  | MurfBad e :: _ => raise e
  | MurfFrame base64_audio is_final :: rest =>
      forward tag base64_audio is_final;;
      if is_final then ret tt else relay_rest tag rest
  end.

(** The first read waits 10 s and its [TimeoutError], whose [str] is empty,
    is not caught here. *)
Definition relay (tag : string → bool → ClientMsg) (events : list MurfEvent)
    : M unit :=
  match events with
  | [] | MurfTimeout :: _ => raise ""
  | MurfBad e :: _ => raise e
  | MurfFrame base64_audio is_final :: rest =>
      forward tag base64_audio is_final;;
      if is_final then ret tt else relay_rest tag rest
  end.

(** Open the synthesis stream for [text], send the three frames, relay. *)
Definition synthesize (st : Store) (w : World) (tag : string → bool → ClientMsg)
    (text : string) : M unit :=
  api_key ← get_api_key st w "murf_api_key" true;
  let voiceId := setting st "voiceId" (JStr "en-IN-alia") in
  let speed := setting st "playbackSpeed" (JFloat 1.0) in
  match murf w api_key voiceId speed text with
  | MurfFail e => raise e
  | MurfStream events =>
      emit (MurfRequest api_key voiceId speed text);;
      relay tag events
  end.

(** ** [save_chat_history] (its own failures are swallowed) *)

Definition save_chat_history (st : Store) (chat_id user_query ai_response : string)
    : M unit :=
  when (truthy (setting st "autoSaveHistory" (JBool true)))
       (emit (SaveHistory chat_id user_query ai_response)).

(** ** [tavily_search] *)

Definition nl : string := String "010" EmptyString.

Definition search_error_msg (status : Z) : string :=
  "Error: Unable to perform web search (status " +:+ PyStr.of_Z status +:+ ").".

Fixpoint summary_lines (idx : nat) (results : list SearchResult) : string :=
  match results with
  | [] => ""
  | r :: rest =>
      PyStr.of_nat idx +:+ ". " +:+ title r +:+ ": " +:+ PyStr.take 200 (content r)
        +:+ "... (Source: " +:+ url r +:+ ")" +:+ nl +:+ summary_lines (S idx) rest
  end.

Definition tavily_search (st : Store) (w : World) (query : string) : M string :=
  if negb (truthy (setting st "enableSearch" (JBool true))) then
    ret "Search is disabled in settings."
  else
    api_key ← get_api_key st w "tavily_api_key" true;
    let max_results := setting st "maxSearchResults" (JInt 3) in
    emit (SearchRequest api_key query max_results);;
    match tavily w api_key query max_results with
    | TavilyRaise e => raise e
    | TavilyStatus status results =>
        if status =? 200 then
          match results with
          | [] => ret "No search results found."
          | _ => ret ("Here are the top search results:" +:+ nl +:+ summary_lines 1 results)
          end
        else
          let error_msg := search_error_msg status in
          emit (Send (error (Text error_msg)));;
          ret error_msg
    end.

(** ** [stream_gemini_response] *)

(** [set(re.sub(r'[^\w\s]', '', s.lower()).split())] *)
Definition words (s : string) : gset string :=
  list_to_set (PyStr.split (PyStr.strip_punct (PyStr.lower s))).

Definition rewritten (filename : string) : string :=
  "Summarize the content of the file '" +:+ filename +:+ "'".

(** [for filename in KNOWLEDGE_BASE: ... break] *)
Fixpoint rewrite_loop (query_words : gset string) (kb : list (string * string))
    (transcript : string) : string :=
  match kb with
  | [] => transcript
  | (filename, _) :: rest =>
      let filename_words := words filename in
      if bool_decide (query_words ∩ filename_words ≠ ∅) then rewritten filename
      else rewrite_loop query_words rest transcript
  end.

(** Lines 384-392: the effective transcript. *)
Definition kb_rewrite (st : Store) (transcript : string) : string :=
  if truthy (setting st "includeKnowledgeBase" (JBool true))
     && PyStr.contains "summary" (PyStr.lower transcript)
  then rewrite_loop (words transcript) (KNOWLEDGE_BASE st) transcript
  else transcript.

(** [any(word in t for word in ["search", "find", "look up"])] *)
Definition has_search_cue (t : string) : bool :=
  existsb (fun word => PyStr.contains word t) ["search"; "find"; "look up"].

Definition wants_email (original_transcript : string) : bool :=
  PyStr.contains "send to email" (PyStr.lower original_transcript)
  || PyStr.contains "email the summary" (PyStr.lower original_transcript).

Definition send_to_zapier (st : Store) (w : World) (accumulated_response : string)
    : M unit :=
  hook ← get_api_key st w "zapier_webhook_url" true;
  match zapier_post w hook accumulated_response with
  | Raise e => raise e
  | Ok _ =>
      emit (Webhook hook accumulated_response);;
      emit (Send (zapier "Email sent successfully"))
  end.

(** The dict lookup that picks the system instruction; a list or an object
    as key is unhashable. *)
Definition system_instruction (conversation_type : JValue) : M SystemInstruction :=
  match conversation_type with
  | JStr s =>
      if String.eqb s "casual" then ret Casual
      else if String.eqb s "formal" then ret Formal
      else if String.eqb s "technical" then ret Technical
      else ret CalmGuide
  | JArr _ => raise "unhashable type: 'list'"
  | JObj _ => raise "unhashable type: 'dict'"
  | _ => ret CalmGuide
  end.

Fixpoint knowledge_lines (kb : list (string * string)) : string :=
  match kb with
  | [] => ""
  | (filename, content) :: rest =>
      nl +:+ "File: " +:+ filename +:+ nl +:+ PyStr.take 2000 content +:+ "..." +:+ nl
        +:+ knowledge_lines rest
  end.

Definition model_parts (st : Store) (transcript : string) : list string :=
  if truthy (setting st "includeKnowledgeBase" (JBool true))
     && match KNOWLEDGE_BASE st with [] => false | _ => true end
  then [transcript;
        nl +:+ nl +:+ "Knowledge Base Content:" +:+ nl +:+ knowledge_lines (KNOWLEDGE_BASE st)]
  else [transcript].

(** Lines 394-445. *)
Definition search_branch (st : Store) (w : World) (chat_id original_transcript
    transcript : string) (is_voice_input : bool) : M (option string) :=
  accumulated_response ← tavily_search st w transcript;
  when is_voice_input (synthesize st w audio accumulated_response);;
  when (PyStr.nonempty accumulated_response)
       (save_chat_history st chat_id original_transcript accumulated_response;;
        emit (Send (search accumulated_response)));;
  when (wants_email original_transcript) (send_to_zapier st w accumulated_response);;
  mret (Some accumulated_response).

(** Lines 447-522. *)
Definition direct_branch (st : Store) (w : World) (chat_id original_transcript
    transcript gemini_api_key : string) (is_voice_input : bool) : M (option string) :=
  sys ← system_instruction (setting st "conversationType" (JStr "casual"));
  let contents := model_parts st transcript in
  emit (ModelRequest gemini_api_key sys contents);;
  match gemini w gemini_api_key sys contents with
  | Raise e => raise e
  | Ok accumulated_response =>
      when is_voice_input (synthesize st w audio accumulated_response);;
      when (PyStr.nonempty accumulated_response)
           (save_chat_history st chat_id original_transcript accumulated_response;;
            emit (Send (response accumulated_response));;
            when (wants_email original_transcript)
                 (send_to_zapier st w accumulated_response));;
      mret (Some accumulated_response)
  end.

Definition stream_gemini_response (st : Store) (w : World) (chat_id transcript : string)
    (is_voice_input : bool) : M (option string) :=
  try_except
    (if negb (PyStr.nonempty (PyStr.strip transcript)) then
       emit (Send (error (Text "Invalid query provided")));;
       mret None
     else
       emit (Send (user_message transcript true));;
       gemini_api_key ← get_api_key st w "gemini_api_key" true;
       if negb (PyStr.nonempty gemini_api_key) then
         emit (Send (error (Text "No valid Gemini API key found")));;
         mret None
       else
         let original_transcript := transcript in
         let transcript := kb_rewrite st transcript in
         if truthy (setting st "enableSearch" (JBool true))
            && has_search_cue (PyStr.lower transcript)
         then search_branch st w chat_id original_transcript transcript is_voice_input
         else direct_branch st w chat_id original_transcript transcript gemini_api_key
                is_voice_input)
    (fun e =>
       emit (Send (error (Text ("Error processing response: " +:+ e))));;
       mret None).

(** ** [ws_handler]: the session loop *)

(** The handler's locals that outlive one iteration. [None] for
    [start_time] is Python's [None]. *)
Record Session : Type := {
  audio_buffer : list byte;
  last_send_time : Z;
  start_time : option Z
}.

(** What [websocket.receive()] returned: a disconnect, or a frame with its
    ["bytes"] and ["text"] entries. *)
Inductive WsMsg : Type :=
| Disconnect
| Receive (bytes : option (list byte)) (text : option string).

(** One turn of [while True]: the message, the clock reading of that turn
    and the globals and collaborators as they are during it. *)
Record Input : Type := {
  msg : WsMsg;
  now : Z;
  store : Store;
  world : World
}.

Inductive Data : Type :=
| DStr (s : string)
| DBytes (b : list byte)
| DNone.

(** [msg.get("bytes") or msg.get("text")]: an empty [bytes] value is falsy,
    so the text entry is taken in its place. *)
Definition data_of (bytes : option (list byte)) (text : option string) : Data :=
  let of_text := match text with Some s => DStr s | None => DNone end in
  match bytes with
  | Some (b :: bs) => DBytes (b :: bs)
  | Some [] | None => of_text
  end.

Inductive Flow : Type := Continue | Break.

Definition len (b : list byte) : Z := Z.of_nat (length b).

(** [transcriber.stream(chunk)]: the call is made and may raise. *)
Definition stream (w : World) (chunk : list byte) : M unit :=
  emit (BridgeStream chunk);;
  match bridge_stream w chunk with
  | Some e => raise e
  | None => ret tt
  end.

Definition sound (st : Store) (what : string) : M unit :=
  when (truthy (setting st "enableSound" (JBool true)))
       (emit (Send (sound_alert what))).

Definition insufficient_msg (n : nat) : string :=
  "Insufficient audio data (" +:+ PyStr.of_nat n
    +:+ " bytes). Please speak for at least 1 second.".

(** Lines 596-600. *)
Definition on_start (i : Input) (s : Session) : M (Session * Flow) :=
  let s' := {| audio_buffer := audio_buffer s; last_send_time := last_send_time s;
               start_time := Some (now i) |} in
  emit (SendText "Started transcription");;
  sound (store i) "start";;
  mret (s', Continue).

(** [(datetime.now() - start_time).total_seconds() * 1000 if start_time else 0],
    in microseconds. *)
Definition elapsed_since_start (s : Session) (current_time : Z) : Z :=
  match start_time s with
  | Some t0 => current_time - t0
  | None => 0
  end.

(** Lines 601-621. *)
Definition on_stop (i : Input) (s : Session) : M (Session * Flow) :=
  let elapsed_us := elapsed_since_start s (now i) in
  (if elapsed_us <? MIN_AUDIO_DURATION_MS * 1000 then
     emit (Send (error (TooShort elapsed_us)))
   else if match audio_buffer s with [] => false | _ => true end
           && (MIN_BUFFER_SIZE <=? len (audio_buffer s)) then
     stream (world i) (audio_buffer s)
   else
     emit (Send (error (Text (insufficient_msg (length (audio_buffer s)))))));;
  emit BridgeClose;;
  emit (SendText "Stopped transcription");;
  sound (store i) "stop";;
  mret (s, Continue).

(** Lines 622-625. *)
Definition on_text_query (chat_id : string) (i : Input) (s : Session) (data : string)
    : M (Session * Flow) :=
  let transcript := PyStr.strip (PyStr.drop 5 data) in
  when (PyStr.nonempty transcript)
       (stream_gemini_response (store i) (world i) chat_id transcript false;; ret tt);;
  mret (s, Continue).

(** Lines 626-658. *)
Definition on_speak (i : Input) (s : Session) (data : string) : M (Session * Flow) :=
  let transcript := PyStr.strip (PyStr.drop 6 data) in
  when (PyStr.nonempty transcript)
       (synthesize (store i) (world i) speak_audio transcript);;
  mret (s, Continue).

(** Lines 659-673. *)
Definition on_bytes (i : Input) (s : Session) (data : list byte) : M (Session * Flow) :=
  let buffer := audio_buffer s ++ data in
  let current_time := now i in
  let elapsed_us := current_time - last_send_time s in
  let kept := {| audio_buffer := buffer; last_send_time := last_send_time s;
                 start_time := start_time s |} in
  if (100 * 1000 <=? elapsed_us) && (MIN_BUFFER_SIZE <=? len buffer) then
    try_except
      (stream (world i) buffer;;
       mret ({| audio_buffer := []; last_send_time := current_time;
                start_time := start_time s |}, Continue))
      (fun e =>
         emit (Send (error (Text ("Audio streaming error: " +:+ e))));;
         emit BridgeClose;;
         mret (kept, Break))
  else mret (kept, Continue).

(** The body of [while True] for one received message. *)
Definition step (chat_id : string) (i : Input) (s : Session) : M (Session * Flow) :=
  match msg i with
  | Disconnect => mret (s, Break)
  | Receive bytes text =>
      match data_of bytes text with
      | DStr data =>
          if String.eqb data "start" then on_start i s
          else if String.eqb data "stop" then on_stop i s
          else if PyStr.startswith "text:" data then on_text_query chat_id i s data
          else if PyStr.startswith "speak:" data then on_speak i s data
          else mret (s, Continue)
      | DBytes data => on_bytes i s data
      | DNone =>
          emit (Send (error (Text "Invalid data received")));;
          mret (s, Continue)
      end
  end.

(** Where the loop stands once the given messages are consumed: still
    waiting in [websocket.receive()], or left through [break]. *)
Inductive LoopEnd : Type :=
| Waiting (s : Session)
| Exited (s : Session).

Fixpoint ws_loop (chat_id : string) (inputs : list Input) (s : Session) : M LoopEnd :=
  match inputs with
  | [] => mret (Waiting s)
  | i :: rest =>
      r ← step chat_id i s;
      match r with
      | (s', Continue) => ws_loop chat_id rest s'
      | (s', Break) => mret (Exited s')
      end
  end.

(** What the connection is opened with: the query parameter, whether the
    chat file exists, the globals and collaborators during set-up and the
    clock reading that initialises [last_send_time]. *)
Record Setup : Type := {
  chat_id : string;
  chat_exists : bool;
  setup_store : Store;
  setup_world : World;
  setup_time : Z
}.

Inductive HandlerEnd : Type :=
| Rejected (code : Z)        (* WebSocketException before accept *)
| Listening (s : Session)    (* waiting for the next message *)
| Closed.                    (* the [finally] block has run *)

(** Lines 538-584 followed by the loop. *)
Definition ws_body (c : Setup) (inputs : list Input) : M LoopEnd :=
  get_api_key (setup_store c) (setup_world c) "aai_api_key" true;;
  emit BridgeConnect;;
  match bridge_connect (setup_world c) with
  | Some e => raise e
  | None =>
      ws_loop (chat_id c) inputs
        {| audio_buffer := []; last_send_time := setup_time c; start_time := None |}
  end.

Definition ws_handler (c : Setup) (inputs : list Input) : list Effect * HandlerEnd :=
  if negb (PyStr.nonempty (chat_id c)) then ([], Rejected 400)
  else if negb (chat_exists c) then ([], Rejected 403)
  else
    match ws_body c inputs with
    | (tr, Ok (Waiting s)) => (WsAccept :: tr, Listening s)
    | (tr, Ok (Exited _)) => (WsAccept :: tr ++ [BridgeClose; WsClose], Closed)
    | (tr, Raise e) =>
        (WsAccept :: tr ++ [Send (error (Text ("WebSocket error: " +:+ e)));
                            BridgeClose; WsClose], Closed)
    end.

(** ** Vocabulary of the properties *)

(** A flush is a call of [transcriber.stream]. *)
Definition is_flush (e : Effect) : bool :=
  match e with BridgeStream _ => true | _ => false end.

Definition flushed (tr : list Effect) : bool := existsb is_flush tr.

(** The chunks handed to [transcriber.stream], in order. *)
Definition chunks (tr : list Effect) : list (list byte) :=
  flat_map (fun e => match e with BridgeStream chunk => [chunk] | _ => [] end) tr.

(** The test of line 663 for a frame [data], with the constants written out. *)
Definition flush_due (i : Input) (s : Session) (data : list byte) : Prop :=
  100 * 1000 ≤ now i - last_send_time s ∧ 88200 ≤ len (audio_buffer s ++ data).

Definition is_connect (e : Effect) : bool :=
  match e with BridgeConnect => true | _ => false end.

(** How many times the trace opens a transcription connection. *)
Definition connects (tr : list Effect) : nat :=
  length (List.filter is_connect tr).

(** The language-model side of a turn: the model call and the
    [response]-typed message. *)
Definition is_model_effect (e : Effect) : bool :=
  match e with
  | ModelRequest _ _ _ => true
  | Send (response _) => true
  | _ => false
  end.

(** The effects no part of the search branch has: those of the
    language-model side and the calls on the transcriber. *)
Definition off_search_path (e : Effect) : bool :=
  match e with
  | ModelRequest _ _ _ | Send (response _) => true
  | BridgeConnect | BridgeStream _ | BridgeClose => true
  | _ => false
  end.

Definition on_search_path (e : Effect) : Prop := off_search_path e = false.

Definition no_connect (e : Effect) : Prop := is_connect e = false.

(** The events the relay reads: up to and including the first one that is
    not a non-final frame. *)
Fixpoint received (events : list MurfEvent) : list MurfEvent :=
  match events with
  | [] => []
  | MurfFrame base64_audio false :: rest => MurfFrame base64_audio false :: received rest
  | ev :: _ => [ev]
  end.

(** The client messages owed to a list of events: one per frame with a
    non-empty payload, tagged with the frame's terminal flag. *)
Definition forwarded (tag : string → bool → ClientMsg) (events : list MurfEvent)
    : list Effect :=
  flat_map (fun ev =>
              match ev with
              | MurfFrame base64_audio is_final =>
                  if PyStr.nonempty base64_audio then [Send (tag base64_audio is_final)] else []
              | _ => []
              end) events.

Definition nonfinal_frame (ev : MurfEvent) : Prop :=
  match ev with MurfFrame _ false => True | _ => False end.

(** Collaborators for the worked examples: nothing in the environment, a
    search with no results, a model that answers "hi", the three-frame
    synthesis stream, and a transcriber that accepts every call. *)
Definition example_world : World :=
  {| environ := ∅;
     tavily := fun _ _ _ => TavilyStatus 200 [];
     gemini := fun _ _ _ => Ok "hi";
     murf := fun _ _ _ _ =>
       MurfStream [MurfFrame "A" false; MurfFrame "B" false; MurfFrame "" true];
     zapier_post := fun _ _ => Ok 200;
     bridge_connect := None;
     bridge_stream := fun _ => None;
     settings_write := fun _ => None |}.

(** The same with a Gemini key in the environment. *)
Definition keyed_world : World :=
  {| environ := {[ "gemini_api_key" := "g-key" ]};
     tavily := tavily example_world;
     gemini := gemini example_world;
     murf := murf example_world;
     zapier_post := zapier_post example_world;
     bridge_connect := None;
     bridge_stream := fun _ => None;
     settings_write := fun _ => None |}.

Definition text_frame (data : string) (t : Z) (st : Store) (w : World) : Input :=
  {| msg := Receive None (Some data); now := t; store := st; world := w |}.

Definition binary_frame (data : list byte) (t : Z) (st : Store) (w : World) : Input :=
  {| msg := Receive (Some data) None; now := t; store := st; world := w |}.

(** The knowledge base of the summary scenario: two uploaded text files. *)
Definition two_documents (notes report : string) : Store :=
  {| USER_API_KEYS := ∅; USER_OVERRIDE_ENV := false; USER_SETTINGS := default_settings;
     KNOWLEDGE_BASE := [("notes.txt", notes); ("report.txt", report)] |}.

(** A knowledge base with one document whose name has two words. *)
Definition my_notes : Store :=
  {| USER_API_KEYS := ∅; USER_OVERRIDE_ENV := false; USER_SETTINGS := default_settings;
     KNOWLEDGE_BASE := [("my notes.txt", "milk, eggs")] |}.

(** An accepted connection with the default settings. *)
Definition example_setup : Setup :=
  {| chat_id := "1"; chat_exists := true; setup_store := initial_store;
     setup_world := example_world; setup_time := 0 |}.

(** Two recording turns on one client connection, with no audio sent:
    [start] at 0 s, [stop] at 2 s, [start] at 3 s, [stop] at 5 s. *)
Definition two_turns : list Input :=
  [ text_frame "start" 0 initial_store example_world;
    text_frame "stop" 2000000 initial_store example_world;
    text_frame "start" 3000000 initial_store example_world;
    text_frame "stop" 5000000 initial_store example_world ].

(** One second of silence at 44100 Hz, 16-bit mono. *)
Definition second_of_audio : list byte := repeat x00 (Z.to_nat 88200).

(** The globals as the reset branch of [reset_settings] assigns them. *)
Definition reset_store (st : Store) : Store :=
  {| USER_API_KEYS := ∅; USER_OVERRIDE_ENV := false;
     USER_SETTINGS := default_settings; KNOWLEDGE_BASE := KNOWLEDGE_BASE st |}.

(** The globals after a call of [reset_settings]. *)
Definition store_after (r : list Effect * Store * Reply) : Store := snd (fst r).

Definition reply_of (r : list Effect * Store * Reply) : Reply := snd r.

(** ** Further vocabulary *)

(** The bytes a received message carries as audio. *)
Definition payload (i : Input) : list byte :=
  match msg i with
  | Receive (Some data) _ => data
  | _ => []
  end.

Definition is_binary (i : Input) : Prop :=
  ∃ b bs text, msg i = Receive (Some (b :: bs)) text.

(** A call on the transcriber. *)
Definition is_bridge (e : Effect) : bool :=
  match e with
  | BridgeConnect | BridgeStream _ | BridgeClose => true
  | _ => false
  end.

Definition no_bridge (e : Effect) : Prop := is_bridge e = false.

(** The effect appends an exchange to a chat's history file. *)
Definition is_save (e : Effect) : bool :=
  match e with SaveHistory _ _ _ => true | _ => false end.

(** How many exchanges the trace saves. *)
Definition saves (tr : list Effect) : nat := length (List.filter is_save tr).

(** What the key lookup, the search helper, the synthesis relay and the
    webhook call may do: talk to the client and to their own service. *)
Definition is_plumbing (e : Effect) : bool :=
  match e with
  | SendTask _ | Send (error _) | Send (audio _ _) | Send (speak_audio _ _)
  | Send (zapier _) | SearchRequest _ _ _ | MurfRequest _ _ _ _ | Webhook _ _ => true
  | _ => false
  end.

Definition plumbing (e : Effect) : Prop := is_plumbing e = true.

(** A saved exchange is the one of this turn: this chat, the query as it
    came in, a reply that is not empty. *)
Definition this_exchange (cid original : string) (e : Effect) : Prop :=
  ∀ c u r, e = SaveHistory c u r → c = cid ∧ u = original ∧ r ≠ "".

(** The reply reaching the client as a [response] or the history file. *)
Definition is_reply (e : Effect) : bool :=
  match e with
  | Send (response _) | SaveHistory _ _ _ => true
  | _ => false
  end.

(** A knowledge base whose first document does not match a query about
    "my notes" and whose second and third both do. *)
Definition three_documents : Store :=
  {| USER_API_KEYS := ∅; USER_OVERRIDE_ENV := false; USER_SETTINGS := default_settings;
     KNOWLEDGE_BASE := [("report.txt", "r"); ("my notes.txt", "n"); ("notes of may.txt", "m")] |}.

(** Collaborators whose synthesis service never answers and whose search
    service answers 503. *)
Definition failing_world : World :=
  {| environ := {[ "gemini_api_key" := "g-key" ]};
     tavily := fun _ _ _ => TavilyStatus 503 [];
     gemini := fun _ _ _ => Ok "hi";
     murf := fun _ _ _ _ => MurfStream [];
     zapier_post := fun _ _ => Ok 200;
     bridge_connect := None;
     bridge_stream := fun _ => None;
     settings_write := fun _ => None |}.

(** ** Administrative endpoints *)

(** The characters [re.sub(r'[^\w\s.-]', '', filename)] keeps. *)
Definition is_filename_char (c : ascii) : bool :=
  PyStr.is_word c || PyStr.is_space c || Ascii.eqb c "." || Ascii.eqb c "-".

(** [sanitize_filename] *)
Fixpoint sanitize_filename (filename : string) : string :=
  match filename with
  | EmptyString => EmptyString
  | String c rest =>
      if is_filename_char c then String c (sanitize_filename rest)
      else sanitize_filename rest
  end.

Definition required_keys : list string :=
  ["aai_api_key"; "gemini_api_key"; "murf_api_key"; "tavily_api_key"].

(** [k in required_keys or k == "zapier_webhook_url"] *)
Definition storable (k : string) : bool :=
  existsb (String.eqb k) required_keys || String.eqb k "zapier_webhook_url".

(** [POST /set_keys] on a dictionary of strings. Nothing in the [try] block
    can raise on such a dictionary, so the [except] branch, which repeats the
    update, is not reached. *)
Definition set_api_keys (keys : gmap string string) (st : Store) : Store * Reply :=
  let override :=
    String.eqb (PyStr.lower (default "false" (keys !! "override_env"))) "true" in
  ({| USER_API_KEYS :=
        filter (fun kv : string * string => storable kv.1 = true) keys ∪ USER_API_KEYS st;
      USER_OVERRIDE_ENV := override;
      USER_SETTINGS := USER_SETTINGS st;
      KNOWLEDGE_BASE := KNOWLEDGE_BASE st |},
   message "API keys saved successfully.").

(** [POST /set_settings]: the dictionary is merged into [USER_SETTINGS]
    before [settings.json] is written. *)
Definition set_settings (w : World) (settings : gmap string JValue) (st : Store)
    : list Effect * Store * Reply :=
  let st' := {| USER_API_KEYS := USER_API_KEYS st;
                USER_OVERRIDE_ENV := USER_OVERRIDE_ENV st;
                USER_SETTINGS := settings ∪ USER_SETTINGS st;
                KNOWLEDGE_BASE := KNOWLEDGE_BASE st |} in
  match settings_write w (USER_SETTINGS st') with
  | None => ([WriteSettings (USER_SETTINGS st')], st', message "Settings saved successfully.")
  | Some e => ([], st', error_reply e)
  end.

Definition is_search_request (e : Effect) : bool :=
  match e with SearchRequest _ _ _ => true | _ => false end.

(** ** Chat files *)


(** [s.endswith(suffix)] *)
Fixpoint endswith (suffix s : string) : bool :=
  String.eqb s suffix
  || match s with
     | EmptyString => false
     | String _ s' => endswith suffix s'
     end.





(** [get_chat_file], relative to the chats directory *)
Definition chat_file (chat_id : string) : string := chat_id +:+ ".json".










(** The entry [save_chat_history] appends; [timestamp] is
    [datetime.now().isoformat()]. *)
Definition history_entry (timestamp user_query ai_response : string) : JValue :=
  JObj [("timestamp", JStr timestamp); ("user_query", JStr user_query);
        ("ai_response", JStr ai_response)].

(** Lines 96-111 of [save_chat_history], what a [SaveHistory] effect does to
    the chats directory: the file is read when it exists, the entry appended
    and the file written back; a file that does not decode, or that does not
    hold a list, raises before anything is written and the function returns
    [False]. *)
Definition append_history (dir : gmap string (option JValue))
    (timestamp chat_id user_query ai_response : string)
    : gmap string (option JValue) * bool :=
  let entry := history_entry timestamp user_query ai_response in
  match dir !! chat_file chat_id with
  | None => (<[chat_file chat_id := Some (JArr [entry])]> dir, true)
  | Some (Some (JArr history)) =>
      (<[chat_file chat_id := Some (JArr (history ++ [entry]))]> dir, true)
  | Some _ => (dir, false)
  end.

(** [GET /chat_history]: the decoded file, the empty list when there is no
    file, and [None] for the [{"error": ...}] answer given when the file does
    not decode. *)
Definition get_chat_history (dir : gmap string (option JValue)) (chat_id : string)
    : option JValue :=
  match dir !! chat_file chat_id with
  | None => Some (JArr [])
  | Some content => content
  end.

(** ** Knowledge-base files *)

(** [KNOWLEDGE_BASE[name] = text] on the items of the dict: an existing key
    keeps its place, a new one goes last. *)
Fixpoint kb_set (name text : string) (kb : list (string * string))
    : list (string * string) :=
  match kb with
  | [] => [(name, text)]
  | (name', text') :: rest =>
      if String.eqb name' name then (name, text) :: rest
      else (name', text') :: kb_set name text rest
  end.

(** [KNOWLEDGE_BASE.get(name)] *)
Fixpoint kb_get (name : string) (kb : list (string * string)) : option string :=
  match kb with
  | [] => None
  | (name', text') :: rest => if String.eqb name' name then Some text' else kb_get name rest
  end.

(** ["\n".join(page.extract_text() or "" for page in pdf.pages)] *)
Fixpoint join_pages (pages : list (option string)) : string :=
  match pages with
  | [] => ""
  | [page] => default "" page
  | page :: rest => default "" page +:+ nl +:+ join_pages rest
  end.

(** What the file system and the PDF reader do during one upload: writing
    the uploaded bytes, reading the pages of the PDF, reading the file back
    as UTF-8 text, writing the extracted text beside it. *)
Record Upload : Type := {
  store_raises : option Exn;
  pdf_pages : result (list (option string));
  utf8_text : result string;
  content_raises : option Exn
}.

(** The JSON answer of [POST /upload] *)
Record UploadReply : Type := {
  upload_message : string;
  extracted_text : string
}.

(** [extracted_text[:200] + ("..." if len(extracted_text) > 200 else "")] *)
Definition text_preview (text : string) : string :=
  PyStr.take 200 text +:+ (if (200 <? String.length text)%nat then "..." else "").

(** [POST /upload]: the files written (relative to the knowledge-base
    directory), the globals, the answer. *)
Definition upload_file (filename : string) (u : Upload) (st : Store)
    : list string * Store * UploadReply :=
  let sanitized_filename := sanitize_filename filename in
  let failed written e :=
    (written, st,
     {| upload_message := "Failed to upload file " +:+ filename +:+ ": " +:+ e;
        extracted_text := "" |}) in
  let processed written text :=
    match content_raises u with
    | Some e => failed written e
    | None =>
        let word_count := length (PyStr.split text) in
        (written ++ [sanitized_filename +:+ ".txt"],
         {| USER_API_KEYS := USER_API_KEYS st; USER_OVERRIDE_ENV := USER_OVERRIDE_ENV st;
            USER_SETTINGS := USER_SETTINGS st;
            KNOWLEDGE_BASE := kb_set sanitized_filename text (KNOWLEDGE_BASE st) |},
         {| upload_message :=
              "File " +:+ sanitized_filename
                +:+ " uploaded and processed successfully! Extracted "
                +:+ PyStr.of_nat word_count +:+ " words.";
            extracted_text := text_preview text |})
    end in
  match store_raises u with
  | Some e => failed [] e
  | None =>
      let written := [sanitized_filename] in
      if endswith ".pdf" sanitized_filename then
        match pdf_pages u with
        | Raise e =>
            (written, st,
             {| upload_message :=
                  "File " +:+ sanitized_filename
                    +:+ " uploaded, but an error occurred: " +:+ e;
                extracted_text := "" |})
        | Ok pages =>
            let text := join_pages pages in
            if negb (PyStr.nonempty (PyStr.strip text)) then
              (written, st,
               {| upload_message :=
                    "File " +:+ sanitized_filename
                      +:+ " uploaded, but no text could be extracted.";
                  extracted_text := "" |})
            else processed written text
        end
      else if endswith ".txt" sanitized_filename then
        match utf8_text u with
        | Raise e => failed written e
        | Ok text => processed written text
        end
      else
        (written, st,
         {| upload_message :=
              "File " +:+ sanitized_filename
                +:+ " uploaded, but only .pdf and .txt are supported.";
            extracted_text := "" |})
  end.

(** [for file in os.listdir(DIR): os.remove(os.path.join(DIR, file))]: the
    files removed before the first removal that raises, and what it
    raised. *)
Fixpoint remove_all (remove_raises : string → option Exn) (files : list string)
    : list string * option Exn :=
  match files with
  | [] => ([], None)
  | file :: rest =>
      match remove_raises file with
      | Some e => ([], Some e)
      | None => let '(removed, r) := remove_all remove_raises rest in (file :: removed, r)
      end
  end.

(** [POST /clear_knowledge_base] over the listing of the knowledge-base
    directory: the files removed, the globals, the answer. *)
Definition clear_knowledge_base (files : list string)
    (remove_raises : string → option Exn) (data : gmap string bool) (st : Store)
    : list string * Store * Reply :=
  if default false (data !! "clear") then
    match remove_all remove_raises files with
    | (removed, Some e) => (removed, st, error_reply e)
    | (removed, None) =>
        (removed,
         {| USER_API_KEYS := USER_API_KEYS st; USER_OVERRIDE_ENV := USER_OVERRIDE_ENV st;
            USER_SETTINGS := USER_SETTINGS st; KNOWLEDGE_BASE := [] |},
         message "Knowledge base cleared successfully.")
    end
  else ([], st, error_reply "Invalid clear request").

(** The name of a document [POST /upload] can have stored. *)
Definition document_name (name : string) : Prop :=
  (endswith ".pdf" name = true ∨ endswith ".txt" name = true)
  ∧ sanitize_filename name = name.

(** A text file that uploads without trouble. *)
Definition plain_upload (text : string) : Upload :=
  {| store_raises := None; pdf_pages := Ok []; utf8_text := Ok text;
     content_raises := None |}.

(** * Properties *)

Lemma MIN_BUFFER_SIZE_eq : MIN_BUFFER_SIZE = 88200.
Proof. reflexivity. Qed.

Lemma nonempty_true s : PyStr.nonempty s = true ↔ s ≠ "".
Proof. destruct s; simpl; split; congruence. Qed.

Lemma nonempty_false s : PyStr.nonempty s = false ↔ s = "".
Proof. destruct s; simpl; split; congruence. Qed.

(** ** Traces of composed computations *)

Lemma trace_bind {A B} (m : M A) (k : A → M B) :
  trace (m ≫= k)
  = trace m ++ match outcome m with Ok a => trace (k a) | Raise _ => [] end.
Proof.
  destruct m as [tr [a|e]]; cbn.
  - by destruct (k a).
  - by rewrite app_nil_r.
Qed.

Lemma outcome_bind {A B} (m : M A) (k : A → M B) :
  outcome (m ≫= k)
  = match outcome m with Ok a => outcome (k a) | Raise e => Raise e end.
Proof. destruct m as [tr [a|e]]; cbn; [by destruct (k a) | done]. Qed.

Lemma trace_try_except {A} (m : M A) (h : Exn → M A) :
  trace (try_except m h)
  = trace m ++ match outcome m with Ok _ => [] | Raise e => trace (h e) end.
Proof.
  destruct m as [tr [a|e]]; cbn.
  - by rewrite app_nil_r.
  - by destruct (h e).
Qed.

Lemma outcome_try_except {A} (m : M A) (h : Exn → M A) :
  outcome (try_except m h)
  = match outcome m with Ok a => Ok a | Raise e => outcome (h e) end.
Proof. destruct m as [tr [a|e]]; cbn; [done | by destruct (h e)]. Qed.

Lemma M_eta {A} (m : M A) : m = (trace m, outcome m).
Proof. by destruct m. Qed.

Section TraceInvariant.
Context {A B : Type} (P : Effect → Prop).

Lemma Forall_trace_bind (m : M A) (k : A → M B) :
  Forall P (trace m) → (∀ a, Forall P (trace (k a))) → Forall P (trace (m ≫= k)).
Proof.
  intros Hm Hk. rewrite trace_bind. apply Forall_app. split; [done|].
  destruct (outcome m); [apply Hk | constructor].
Qed.

Lemma Forall_trace_try (m : M A) (h : Exn → M A) :
  Forall P (trace m) → (∀ e, Forall P (trace (h e))) → Forall P (trace (try_except m h)).
Proof.
  intros Hm Hh. rewrite trace_try_except. apply Forall_app. split; [done|].
  destruct (outcome m); [constructor | apply Hh].
Qed.

Lemma Forall_trace_when (b : bool) (m : M unit) :
  Forall P (trace m) → Forall P (trace (when b m)).
Proof. intros Hm. destruct b; [done | constructor]. Qed.

Lemma Forall_trace_emit (e : Effect) : P e → Forall P (trace (emit e)).
Proof. intros He. by repeat constructor. Qed.

Lemma In_trace_bind_l (m : M A) (k : A → M B) (e : Effect) :
  In e (trace m) → In e (trace (m ≫= k)).
Proof. intros He. rewrite trace_bind. apply in_or_app. by left. Qed.

Lemma In_trace_bind_r (m : M A) (k : A → M B) (a : A) (e : Effect) :
  outcome m = Ok a → In e (trace (k a)) → In e (trace (m ≫= k)).
Proof. intros Hm He. rewrite trace_bind, Hm. apply in_or_app. by right. Qed.

End TraceInvariant.

(** One step of a proof that every effect of a computation satisfies a
    predicate that computes on constructors. *)
Ltac trace_step :=
  lazymatch goal with
  | |- Forall _ (trace (mbind _ _)) => apply Forall_trace_bind; [|intros ?]
  | |- Forall _ (trace (try_except _ _)) => apply Forall_trace_try; [|intros ?]
  | |- Forall _ (trace (when _ _)) => apply Forall_trace_when
  | |- Forall _ (trace (emit _)) => apply Forall_trace_emit; reflexivity
  | |- Forall _ (trace (ret _)) => apply Forall_nil
  | |- Forall _ (trace (mret _)) => apply Forall_nil
  | |- Forall _ (trace (raise _)) => apply Forall_nil
  | |- Forall _ (trace (if ?b then _ else _)) => destruct b
  | |- Forall _ (trace (match ?x with _ => _ end)) => destruct x
  end.

Create HintDb traces.

Ltac trace_tac := repeat first [trace_step | solve [eauto with traces]].

(** ** Credential resolution *)

(** C10: [get_api_key] returns the user key when the override flag is set
    and the user key is present; otherwise the environment key when present;
    otherwise the user key when present; otherwise the empty string, with an
    error message scheduled for the client exactly when a connection was
    passed. Nothing else is emitted and the call never raises. *)
Theorem get_api_key_precedence (st : Store) (w : World) (key_name : string)
    (websocket : bool) :
  let env_key := default "" (environ w !! key_name) in
  let user_key := default "" (USER_API_KEYS st !! key_name) in
  (USER_OVERRIDE_ENV st = true ∧ user_key ≠ "" →
     get_api_key st w key_name websocket = ([], Ok user_key))
  ∧ (¬ (USER_OVERRIDE_ENV st = true ∧ user_key ≠ "") → env_key ≠ "" →
     get_api_key st w key_name websocket = ([], Ok env_key))
  ∧ (¬ (USER_OVERRIDE_ENV st = true ∧ user_key ≠ "") → env_key = "" → user_key ≠ "" →
     get_api_key st w key_name websocket = ([], Ok user_key))
  ∧ (env_key = "" → user_key = "" →
     get_api_key st w key_name websocket
     = (if websocket then [SendTask (error (Text (no_key_msg key_name)))] else [], Ok "")).
Proof.
  intros env_key user_key. unfold get_api_key. fold env_key user_key.
  repeat split.
  - intros [-> Hu%nonempty_true]. by rewrite Hu.
  - intros Hno He%nonempty_true. rewrite He.
    destruct (USER_OVERRIDE_ENV st), (PyStr.nonempty user_key) eqn:Hu; simpl; try done.
    exfalso. apply Hno. split; [done|]. by apply nonempty_true.
  - intros Hno He%nonempty_false Hu%nonempty_true. rewrite He, Hu.
    by destruct (USER_OVERRIDE_ENV st).
  - intros He%nonempty_false Hu%nonempty_false. rewrite He, Hu.
    destruct (USER_OVERRIDE_ENV st), websocket; reflexivity.
Qed.

Lemma get_api_key_returns st w key_name websocket :
  ∃ key, outcome (get_api_key st w key_name websocket) = Ok key.
Proof.
  unfold get_api_key, when.
  destruct (USER_OVERRIDE_ENV st && _); [by eexists|].
  destruct (PyStr.nonempty (default "" (environ w !! key_name))); [by eexists|].
  destruct (PyStr.nonempty (default "" (USER_API_KEYS st !! key_name))); [by eexists|].
  destruct websocket; by eexists.
Qed.

(** The four cases of [get_api_key_precedence] on concrete stores: an
    overriding user key, an environment key that beats a user key, a user key
    as fallback, and no key at all with a connection. *)
Lemma get_api_key_precedence_witness :
  let keys : gmap string string := {[ "murf_api_key" := "user-key" ]} in
  let envw := {| environ := {[ "murf_api_key" := "env-key" ]};
                 tavily := tavily example_world; gemini := gemini example_world;
                 murf := murf example_world; zapier_post := zapier_post example_world;
                 bridge_connect := None; bridge_stream := fun _ => None;
                 settings_write := fun _ => None |} in
  let user_first := {| USER_API_KEYS := keys; USER_OVERRIDE_ENV := true;
                       USER_SETTINGS := default_settings; KNOWLEDGE_BASE := [] |} in
  let env_first := {| USER_API_KEYS := keys; USER_OVERRIDE_ENV := false;
                      USER_SETTINGS := default_settings; KNOWLEDGE_BASE := [] |} in
  get_api_key user_first envw "murf_api_key" true = ([], Ok "user-key")
  ∧ get_api_key env_first envw "murf_api_key" true = ([], Ok "env-key")
  ∧ get_api_key env_first example_world "murf_api_key" true = ([], Ok "user-key")
  ∧ get_api_key initial_store example_world "murf_api_key" true
    = ([SendTask (error (Text "No murf_api_key found in .env or user-provided keys"))], Ok "").
Proof.
  intros keys envw user_first env_first.
  split; [|split; [|split]].
  - destruct (get_api_key_precedence user_first envw "murf_api_key" true) as (H & _).
    apply H. split; [reflexivity | vm_compute; discriminate].
  - destruct (get_api_key_precedence env_first envw "murf_api_key" true) as (_ & H & _).
    apply H.
    + vm_compute. intros [? _]. discriminate.
    + vm_compute. discriminate.
  - destruct (get_api_key_precedence env_first example_world "murf_api_key" true)
      as (_ & _ & H & _).
    apply H.
    + vm_compute. intros [? _]. discriminate.
    + reflexivity.
    + vm_compute. discriminate.
  - destruct (get_api_key_precedence initial_store example_world "murf_api_key" true)
      as (_ & _ & _ & H).
    apply H; reflexivity.
Defined.

(** ** Settings reset *)

Lemma reset_settings_store w data st :
  data !! "reset" = Some true →
  store_after (reset_settings w data st) = reset_store st.
Proof.
  intros H. unfold reset_settings. rewrite H. simpl.
  by destruct (settings_write w default_settings).
Qed.

Lemma reset_settings_written w data st :
  data !! "reset" = Some true →
  settings_write w default_settings = None →
  reset_settings w data st
  = ([WriteSettings default_settings], reset_store st, message "Settings reset successfully.").
Proof. intros H Hw. unfold reset_settings. rewrite H. simpl. by rewrite Hw. Qed.

(** C8: resetting twice in succession leaves the default settings after the
    first call and the same after the second; the whole of the globals is
    the same after each call, whether or not writing [settings.json]
    succeeds, and so is the answer when both writes succeed. *)
Theorem reset_settings_idempotent (w1 w2 : World) (data : gmap string bool)
    (st : Store) :
  data !! "reset" = Some true →
  let first := reset_settings w1 data st in
  let second := reset_settings w2 data (store_after first) in
  USER_SETTINGS (store_after first) = default_settings
  ∧ USER_SETTINGS (store_after second) = default_settings
  ∧ store_after second = store_after first
  ∧ (settings_write w1 default_settings = None →
     settings_write w2 default_settings = None →
     second = first).
Proof.
  intros Hreset first second. subst first second.
  rewrite !reset_settings_store by done.
  repeat split.
  intros H1 H2. by rewrite !reset_settings_written.
Qed.

(** [reset_settings_idempotent] after the settings and keys were changed. *)
Lemma reset_settings_idempotent_witness :
  let st := {| USER_API_KEYS := {[ "murf_api_key" := "k" ]}; USER_OVERRIDE_ENV := true;
               USER_SETTINGS := <[ "theme" := JStr "light" ]> default_settings;
               KNOWLEDGE_BASE := [] |} in
  let data : gmap string bool := {[ "reset" := true ]} in
  let first := reset_settings example_world data st in
  let second := reset_settings example_world data (store_after first) in
  USER_SETTINGS (store_after first) = default_settings
  ∧ USER_SETTINGS (store_after second) = default_settings
  ∧ store_after second = store_after first.
Proof.
  intros st data first second.
  destruct (reset_settings_idempotent example_world example_world data st)
    as (H1 & H2 & H3 & _); [reflexivity|].
  exact (conj H1 (conj H2 H3)).
Defined.

(** ** Speech synthesis relay *)

Lemma trace_forward tag base64_audio is_final :
  trace (forward tag base64_audio is_final)
  = forwarded tag [MurfFrame base64_audio is_final].
Proof. unfold forward, when. simpl. by destruct (PyStr.nonempty base64_audio). Qed.

Lemma outcome_forward tag base64_audio is_final :
  outcome (forward tag base64_audio is_final) = Ok tt.
Proof. unfold forward, when. by destruct (PyStr.nonempty base64_audio). Qed.

Lemma forwarded_cons tag ev events :
  forwarded tag (ev :: events) = forwarded tag [ev] ++ forwarded tag events.
Proof. unfold forwarded. simpl. by rewrite app_nil_r. Qed.

Lemma relay_rest_trace tag events :
  trace (relay_rest tag events) = forwarded tag (received events).
Proof.
  induction events as [|[base64_audio is_final| |e] rest IH]; try reflexivity.
  cbn [relay_rest]. rewrite trace_bind, outcome_forward, trace_forward.
  destruct is_final; cbn [received].
  - by rewrite app_nil_r.
  - by rewrite IH, (forwarded_cons tag _ (received rest)).
Qed.

Lemma relay_trace tag events :
  trace (relay tag events) = forwarded tag (received events).
Proof.
  destruct events as [|[base64_audio is_final| |e] rest]; try reflexivity.
  cbn [relay]. rewrite trace_bind, outcome_forward, trace_forward.
  destruct is_final; cbn [received].
  - by rewrite app_nil_r.
  - by rewrite relay_rest_trace, (forwarded_cons tag _ (received rest)).
Qed.

Lemma received_until_final pre base64_audio rest :
  Forall nonfinal_frame pre →
  received (pre ++ MurfFrame base64_audio true :: rest)
  = pre ++ [MurfFrame base64_audio true].
Proof.
  induction 1 as [|[a [|]| |e] pre Hx Hpre IH]; simpl in *; try done.
  by rewrite IH.
Qed.

Lemma relay_rest_until_final tag pre base64_audio rest :
  Forall nonfinal_frame pre →
  outcome (relay_rest tag (pre ++ MurfFrame base64_audio true :: rest)) = Ok tt.
Proof.
  induction 1 as [|[a [|]| |e] pre Hx Hpre IH]; simpl in *; try done.
  - by rewrite outcome_bind, outcome_forward.
  - by rewrite outcome_bind, outcome_forward.
Qed.

Lemma relay_until_final tag pre base64_audio rest :
  Forall nonfinal_frame pre →
  outcome (relay tag (pre ++ MurfFrame base64_audio true :: rest)) = Ok tt.
Proof.
  destruct 1 as [|[a [|]| |e] pre Hx Hpre]; simpl in *; try done.
  - by rewrite outcome_bind, outcome_forward.
  - rewrite outcome_bind, outcome_forward.
    by apply relay_rest_until_final.
Qed.

(** C6: whatever the synthesis service sends, the relay hands the client
    exactly the frames it read that carry a non-empty payload, each tagged
    with its terminal flag and in arrival order; a frame with an empty
    payload sends nothing but its terminal flag still ends the relay, and
    nothing after the terminal frame is read. For the three frames
    A (not final), B (not final), empty (final) the client gets the two
    messages A then B and the relay returns normally. *)
Theorem relay_forwards_in_order :
  (∀ tag events, trace (relay tag events) = forwarded tag (received events))
  ∧ (∀ tag pre base64_audio rest,
       Forall nonfinal_frame pre →
       relay tag (pre ++ MurfFrame base64_audio true :: rest)
       = (forwarded tag (pre ++ [MurfFrame base64_audio true]), Ok tt))
  ∧ relay audio [MurfFrame "A" false; MurfFrame "B" false; MurfFrame "" true]
    = ([Send (audio "A" false); Send (audio "B" false)], Ok tt)
  ∧ relay speak_audio [MurfFrame "A" false; MurfFrame "B" false; MurfFrame "" true]
    = ([Send (speak_audio "A" false); Send (speak_audio "B" false)], Ok tt).
Proof.
  split; [exact relay_trace|]. split; [|split; reflexivity].
  intros tag pre base64_audio rest Hpre.
  rewrite (M_eta (relay tag _)), relay_trace, received_until_final by done.
  by rewrite relay_until_final.
Qed.

(** The second part of [relay_forwards_in_order] on the three-frame
    response, through the dispatcher's tag and with frames after the
    terminal one. *)
Lemma relay_forwards_in_order_witness :
  Forall nonfinal_frame [MurfFrame "A" false; MurfFrame "B" false]
  ∧ relay audio ([MurfFrame "A" false; MurfFrame "B" false]
                 ++ MurfFrame "" true :: [MurfFrame "C" false])
    = ([Send (audio "A" false); Send (audio "B" false)], Ok tt).
Proof.
  assert (H : Forall nonfinal_frame [MurfFrame "A" false; MurfFrame "B" false])
    by (repeat constructor).
  split; [exact H|].
  destruct relay_forwards_in_order as (_ & Hrelay & _).
  exact (Hrelay audio _ "" [MurfFrame "C" false] H).
Defined.

(** ** The session: stop *)

Lemma step_stop cid i s bytes :
  msg i = Receive bytes (Some "stop") → bytes = None ∨ bytes = Some [] →
  step cid i s = on_stop i s.
Proof. intros Hmsg [-> | ->]; unfold step; by rewrite Hmsg. Qed.

Lemma on_stop_too_short i s :
  elapsed_since_start s (now i) < 1000 * 1000 →
  on_stop i s
  = ([Send (error (TooShort (elapsed_since_start s (now i)))); BridgeClose;
      SendText "Stopped transcription"]
       ++ (if truthy (setting (store i) "enableSound" (JBool true))
           then [Send (sound_alert "stop")] else []),
     Ok (s, Continue)).
Proof.
  intros Hlt. unfold on_stop.
  replace (elapsed_since_start s (now i) <? MIN_AUDIO_DURATION_MS * 1000) with true
    by (symmetry; apply Z.ltb_lt; exact Hlt).
  unfold sound, when. by destruct (truthy _).
Qed.

(** C4, as the code has it: a [stop] that arrives less than 1000 ms after
    the recorded start sends the "too short" error, calls no
    [transcriber.stream], and leaves the session, its audio buffer included,
    exactly as it was; the transcriber is closed and the loop goes on. *)
Theorem stop_too_short (cid : string) (i : Input) (s : Session) :
  msg i = Receive None (Some "stop") →
  elapsed_since_start s (now i) < 1000 * 1000 →
  In (Send (error (TooShort (elapsed_since_start s (now i))))) (trace (step cid i s))
  ∧ flushed (trace (step cid i s)) = false
  ∧ In BridgeClose (trace (step cid i s))
  ∧ outcome (step cid i s) = Ok (s, Continue).
Proof.
  intros Hmsg Hlt.
  rewrite (step_stop cid i s None), on_stop_too_short by auto.
  cbn [trace outcome fst snd]. repeat split.
  - by left.
  - by destruct (truthy _).
  - right. by left.
Qed.

(** [stop_too_short] half a second after [start], with two bytes buffered. *)
Lemma stop_too_short_witness :
  let s := {| audio_buffer := [x01; x02]; last_send_time := 0; start_time := Some 0 |} in
  let i := text_frame "stop" 500000 initial_store example_world in
  flushed (trace (step "1" i s)) = false
  ∧ outcome (step "1" i s) = Ok (s, Continue).
Proof.
  intros s i.
  destruct (stop_too_short "1" i s) as (_ & H1 & _ & H2);
    [reflexivity | vm_compute; reflexivity |].
  exact (conj H1 H2).
Defined.

(** C4 as stated fails on the buffer: after a too-short [stop] the two
    buffered bytes are still in the session, and the next turn's first
    flush hands them to the transcriber. *)
Lemma stop_too_short_keeps_buffer :
  let s := {| audio_buffer := [x01; x02]; last_send_time := 0; start_time := Some 0 |} in
  let stop := text_frame "stop" 500000 initial_store example_world in
  let again := text_frame "start" 600000 initial_store example_world in
  let frame := binary_frame second_of_audio 700000 initial_store example_world in
  elapsed_since_start s (now stop) < 1000 * 1000
  ∧ (∃ s', outcome (step "1" stop s) = Ok (s', Continue) ∧ audio_buffer s' = [x01; x02])
  ∧ map (firstn 2) (chunks (trace (ws_loop "1" [stop; again; frame] s))) = [[x01; x02]]
  ∧ map len (chunks (trace (ws_loop "1" [stop; again; frame] s))) = [88202].
Proof.
  intros s stop again frame. split; [vm_compute; reflexivity|]. split.
  - exists s. split; vm_compute; reflexivity.
  - split; vm_compute; reflexivity.
Qed.

(** C9: a [stop] on a session that never saw a [start] counts 0 ms of
    recording: the client gets the "too short" error, the transcriber is
    closed, the session is unchanged and the loop continues; a connection
    whose first message is that [stop] stays open, waiting for the next
    message. *)
Theorem stop_without_start (cid : string) (i : Input) (s : Session) :
  msg i = Receive None (Some "stop") →
  start_time s = None →
  step cid i s
  = ([Send (error (TooShort 0)); BridgeClose; SendText "Stopped transcription"]
       ++ (if truthy (setting (store i) "enableSound" (JBool true))
           then [Send (sound_alert "stop")] else []),
     Ok (s, Continue))
  ∧ ∀ c, PyStr.nonempty (chat_id c) = true → chat_exists c = true →
         bridge_connect (setup_world c) = None →
         snd (ws_handler c [i])
         = Listening {| audio_buffer := []; last_send_time := setup_time c;
                        start_time := None |}.
Proof.
  intros Hmsg Hstart.
  assert (Hstep : ∀ cid' s', start_time s' = None →
            step cid' i s'
            = ([Send (error (TooShort 0)); BridgeClose; SendText "Stopped transcription"]
                 ++ (if truthy (setting (store i) "enableSound" (JBool true))
                     then [Send (sound_alert "stop")] else []),
               Ok (s', Continue))).
  { intros cid' s' Hs'. rewrite (step_stop cid' i s' None) by auto.
    assert (He : elapsed_since_start s' (now i) = 0)
      by (unfold elapsed_since_start; by rewrite Hs').
    rewrite on_stop_too_short; rewrite He; [done | lia]. }
  split; [by apply Hstep|].
  intros c Hid Hex Hconn. unfold ws_handler, ws_body.
  rewrite Hid, Hex, Hconn. cbn [negb].
  set (s0 := {| audio_buffer := []; last_send_time := setup_time c; start_time := None |}).
  cbn [ws_loop]. rewrite (Hstep (chat_id c) s0) by done.
  destruct (get_api_key_returns (setup_store c) (setup_world c) "aai_api_key" true)
    as [key Hkey].
  rewrite (M_eta (get_api_key _ _ _ _)), Hkey. cbn.
  by destruct (truthy _).
Qed.

(** [stop_without_start] as the first message of a connection. *)
Lemma stop_without_start_witness :
  let c := {| chat_id := "1"; chat_exists := true; setup_store := initial_store;
              setup_world := example_world; setup_time := 0 |} in
  let i := text_frame "stop" 250000 initial_store example_world in
  ws_handler c [i]
  = ([WsAccept;
      SendTask (error (Text "No aai_api_key found in .env or user-provided keys"));
      BridgeConnect;
      Send (error (TooShort 0)); BridgeClose; SendText "Stopped transcription";
      Send (sound_alert "stop")],
     Listening {| audio_buffer := []; last_send_time := 0; start_time := None |}).
Proof.
  intros c i.
  destruct (stop_without_start "1" i
              {| audio_buffer := []; last_send_time := 0; start_time := None |})
    as [_ H]; [reflexivity | reflexivity |].
  specialize (H c eq_refl eq_refl eq_refl).
  rewrite (surjective_pairing (ws_handler c [i])), H.
  f_equal.
Defined.

(** ** The session: binary frames *)

Lemma step_bytes cid i s b bs text :
  msg i = Receive (Some (b :: bs)) text →
  step cid i s = on_bytes i s (b :: bs).
Proof. intros Hmsg. unfold step. by rewrite Hmsg. Qed.

Lemma flush_due_test i s data :
  (100 * 1000 <=? now i - last_send_time s) && (MIN_BUFFER_SIZE <=? len (audio_buffer s ++ data))
  = true ↔ flush_due i s data.
Proof.
  unfold flush_due. rewrite MIN_BUFFER_SIZE_eq, andb_true_iff, !Z.leb_le. tauto.
Qed.

Lemma on_bytes_due i s data :
  flush_due i s data →
  on_bytes i s data
  = match bridge_stream (world i) (audio_buffer s ++ data) with
    | None =>
        ([BridgeStream (audio_buffer s ++ data)],
         Ok ({| audio_buffer := []; last_send_time := now i; start_time := start_time s |},
             Continue))
    | Some e =>
        ([BridgeStream (audio_buffer s ++ data);
          Send (error (Text ("Audio streaming error: " +:+ e))); BridgeClose],
         Ok ({| audio_buffer := audio_buffer s ++ data; last_send_time := last_send_time s;
                start_time := start_time s |}, Break))
    end.
Proof.
  intros Hdue%flush_due_test. unfold on_bytes. rewrite Hdue.
  unfold stream. by destruct (bridge_stream _ _).
Qed.

Lemma on_bytes_not_due i s data :
  ¬ flush_due i s data →
  on_bytes i s data
  = ([], Ok ({| audio_buffer := audio_buffer s ++ data; last_send_time := last_send_time s;
                start_time := start_time s |}, Continue)).
Proof.
  intros Hnot. unfold on_bytes.
  destruct (_ && _) eqn:Htest; [|done].
  by apply flush_due_test in Htest.
Qed.

(** C1, as the code has it: for every binary frame that carries at least
    one byte, in whatever state the session is, the buffer (with the frame
    appended) is handed to the transcriber if and only if at least 100 ms
    separate the clock from the session's [last_send_time] and the buffer
    holds at least 88200 bytes, the value of [MIN_BUFFER_SIZE]; when it is,
    it is handed over once and whole, and otherwise nothing is. *)
Theorem frame_flush_iff (cid : string) (i : Input) (s : Session) (b : byte)
    (bs : list byte) (text : option string) :
  msg i = Receive (Some (b :: bs)) text →
  (flushed (trace (step cid i s)) = true
   ↔ 100 * 1000 ≤ now i - last_send_time s ∧ 88200 ≤ len (audio_buffer s ++ b :: bs))
  ∧ chunks (trace (step cid i s))
    = (if flushed (trace (step cid i s)) then [audio_buffer s ++ b :: bs] else [])
  ∧ MIN_BUFFER_SIZE = 88200.
Proof.
  intros Hmsg. rewrite (step_bytes cid i s b bs text Hmsg).
  fold (flush_due i s (b :: bs)).
  destruct (Z_le_dec (100 * 1000) (now i - last_send_time s)) as [Ht|Ht];
    [destruct (Z_le_dec 88200 (len (audio_buffer s ++ b :: bs))) as [Hn|Hn]|].
  - assert (Hdue : flush_due i s (b :: bs)) by done.
    rewrite (on_bytes_due _ _ _ Hdue).
    destruct (bridge_stream _ _); cbn; repeat split; auto.
  - assert (Hnot : ¬ flush_due i s (b :: bs)) by (intros [_ ?]; done).
    rewrite (on_bytes_not_due _ _ _ Hnot). cbn. repeat split; try done.
  - assert (Hnot : ¬ flush_due i s (b :: bs)) by (intros [? _]; done).
    rewrite (on_bytes_not_due _ _ _ Hnot). cbn. repeat split; try done.
Qed.

(** [frame_flush_iff] on a one-byte frame that follows one second of
    buffered audio: 150 ms after the last flush it is flushed, 50 ms after
    it is not. *)
Lemma frame_flush_iff_witness :
  let s := {| audio_buffer := second_of_audio; last_send_time := 0; start_time := Some 0 |} in
  flushed (trace (step "1" (binary_frame [x01] 150000 initial_store example_world) s)) = true
  ∧ flushed (trace (step "1" (binary_frame [x01] 50000 initial_store example_world) s)) = false.
Proof.
  intros s. split.
  - destruct (frame_flush_iff "1" (binary_frame [x01] 150000 initial_store example_world) s
                x01 [] None) as ([_ H] & _); [reflexivity|].
    apply H. split; vm_compute; congruence.
  - destruct (frame_flush_iff "1" (binary_frame [x01] 50000 initial_store example_world) s
                x01 [] None) as ([H _] & _); [reflexivity|].
    destruct (flushed _); [|reflexivity].
    exfalso. destruct (H eq_refl) as [Hlate _]. revert Hlate. vm_compute. congruence.
Defined.

(** C1 as stated fails on an empty binary frame: with one second of audio
    buffered and 200 ms gone since the last flush both conditions hold, yet
    the frame is answered with "Invalid data received" and nothing is
    flushed. *)
Lemma empty_frame_no_flush :
  let s := {| audio_buffer := second_of_audio; last_send_time := 0; start_time := Some 0 |} in
  let i := binary_frame [] 200000 initial_store example_world in
  100 * 1000 ≤ now i - last_send_time s
  ∧ 88200 ≤ len (audio_buffer s ++ [])
  ∧ flushed (trace (step "1" i s)) = false
  ∧ trace (step "1" i s) = [Send (error (Text "Invalid data received"))].
Proof.
  intros s i. repeat split; vm_compute; congruence.
Qed.

(** ** The session: what a flush leaves in the buffer *)

Lemma on_stop_flush i s :
  1000 * 1000 ≤ elapsed_since_start s (now i) →
  88200 ≤ len (audio_buffer s) →
  bridge_stream (world i) (audio_buffer s) = None →
  on_stop i s
  = ([BridgeStream (audio_buffer s); BridgeClose; SendText "Stopped transcription"]
       ++ (if truthy (setting (store i) "enableSound" (JBool true))
           then [Send (sound_alert "stop")] else []),
     Ok (s, Continue)).
Proof.
  intros Hlong Hbig Hok. unfold on_stop.
  replace (elapsed_since_start s (now i) <? MIN_AUDIO_DURATION_MS * 1000) with false
    by (symmetry; apply Z.ltb_ge; exact Hlong).
  replace (MIN_BUFFER_SIZE <=? len (audio_buffer s)) with true
    by (symmetry; apply Z.leb_le; by rewrite MIN_BUFFER_SIZE_eq).
  destruct (audio_buffer s) as [|b bs] eqn:Hbuf; [unfold len in Hbig; simpl in Hbig; lia|].
  unfold stream. rewrite Hok. unfold sound, when. by destruct (truthy _).
Qed.

(** The flush on a binary frame empties the buffer and restarts the
    100 ms timer. *)
Lemma frame_flush_clears cid i s b bs text :
  msg i = Receive (Some (b :: bs)) text →
  flush_due i s (b :: bs) →
  bridge_stream (world i) (audio_buffer s ++ b :: bs) = None →
  outcome (step cid i s)
  = Ok ({| audio_buffer := []; last_send_time := now i; start_time := start_time s |},
        Continue).
Proof.
  intros Hmsg Hdue Hok.
  by rewrite (step_bytes cid i s b bs text Hmsg), (on_bytes_due _ _ _ Hdue), Hok.
Qed.

(** C2 on the [stop] path: when [stop] performs the final flush and the
    transcriber accepts it, the whole buffer is handed over and the session
    keeps it as it was, so the next binary frame that comes 100 ms or more
    after [last_send_time] hands the same bytes over again, followed by the
    new frame. *)
Theorem stop_flush_keeps_buffer (cid : string) (i : Input) (s : Session) :
  msg i = Receive None (Some "stop") →
  1000 * 1000 ≤ elapsed_since_start s (now i) →
  88200 ≤ len (audio_buffer s) →
  bridge_stream (world i) (audio_buffer s) = None →
  chunks (trace (step cid i s)) = [audio_buffer s]
  ∧ outcome (step cid i s) = Ok (s, Continue)
  ∧ ∀ j b bs text,
      msg j = Receive (Some (b :: bs)) text →
      100 * 1000 ≤ now j - last_send_time s →
      chunks (trace (step cid j s)) = [audio_buffer s ++ b :: bs].
Proof.
  intros Hmsg Hlong Hbig Hok.
  rewrite (step_stop cid i s None), on_stop_flush by auto.
  cbn [trace outcome fst snd]. repeat split.
  - cbn. by destruct (truthy _).
  - intros j b bs text Hj Hlate.
    assert (Hdue : flush_due j s (b :: bs)).
    { split; [done|]. unfold len in *. rewrite length_app. lia. }
    rewrite (step_bytes cid j s b bs text Hj), (on_bytes_due _ _ _ Hdue).
    destruct (bridge_stream (world j) _); reflexivity.
Qed.

(** [stop_flush_keeps_buffer] on a turn that buffers one second of audio
    within 50 ms and stops after 1.1 s: the buffer is flushed at [stop] and
    is still there one byte later, when it is flushed again. *)
Lemma stop_flush_keeps_buffer_witness :
  let st := initial_store in
  let w := example_world in
  let s := {| audio_buffer := second_of_audio; last_send_time := 0; start_time := Some 0 |} in
  chunks (trace (step "1" (text_frame "stop" 1100000 st w) s)) = [second_of_audio]
  ∧ outcome (step "1" (text_frame "stop" 1100000 st w) s) = Ok (s, Continue)
  ∧ chunks (trace (step "1" (binary_frame [x01] 1200000 st w) s))
    = [second_of_audio ++ [x01]].
Proof.
  intros st w s.
  destruct (stop_flush_keeps_buffer "1" (text_frame "stop" 1100000 st w) s)
    as (H1 & H2 & H3).
  - reflexivity.
  - vm_compute. congruence.
  - vm_compute. congruence.
  - reflexivity.
  - split; [exact H1|]. split; [exact H2|].
    apply (H3 (binary_frame [x01] 1200000 st w) x01 [] None); [reflexivity|].
    vm_compute. congruence.
Defined.

(** ** Knowledge-base rewrite *)

(** The general rule of lines 384-392: with the option on and "summary" in
    the lowered query, the first document (in insertion order) whose
    normalised name shares a word with the normalised query is the one the
    query is rewritten to. *)
Lemma kb_rewrite_first_match st query pre filename content post :
  truthy (setting st "includeKnowledgeBase" (JBool true)) = true →
  PyStr.contains "summary" (PyStr.lower query) = true →
  KNOWLEDGE_BASE st = pre ++ (filename, content) :: post →
  Forall (fun d => words query ∩ words (fst d) = ∅) pre →
  words query ∩ words filename ≠ ∅ →
  kb_rewrite st query = rewritten filename.
Proof.
  intros Hkb Hsum Hdocs Hpre Hhit. unfold kb_rewrite. rewrite Hkb, Hsum, Hdocs. cbn [andb].
  clear Hdocs.
  induction Hpre as [|[f c] pre Hf Hpre IH]; cbn [rewrite_loop app fst] in *.
  - by rewrite bool_decide_eq_true_2.
  - rewrite bool_decide_eq_false_2; [exact IH|].
    intros Hne. exact (Hne Hf).
Qed.

(** C3 on its own scenario: the normalisation deletes the dot, so the name
    [report.txt] is the single word [reporttxt]; the query
    "give me a summary of report" shares no word with either document and
    stays as it is, and the dispatcher sends it to the language model
    unchanged. *)
Theorem kb_rewrite_report_scenario (notes report : string) :
  let st := two_documents notes report in
  let query := "give me a summary of report" in
  elements (words "report.txt") = ["reporttxt"]
  ∧ kb_rewrite st query = query
  ∧ trace (stream_gemini_response st keyed_world "1" query false)
    = [Send (user_message query true);
       ModelRequest "g-key" Casual (model_parts st query);
       SaveHistory "1" query "hi";
       Send (response "hi")].
Proof. intros st query. repeat split; vm_compute; reflexivity. Qed.

(** ** Reply dispatcher: the search branch *)

Lemma relay_rest_effects (P : Effect → Prop) tag events :
  (∀ a f, P (Send (tag a f))) → Forall P (trace (relay_rest tag events)).
Proof.
  intros Htag. rewrite relay_rest_trace.
  induction (received events) as [|[a f| |e] evs IH]; try done.
  unfold forwarded in *. cbn [flat_map]. apply Forall_app. split; [|done].
  destruct (PyStr.nonempty a); by repeat constructor.
Qed.

Lemma relay_effects (P : Effect → Prop) tag events :
  (∀ a f, P (Send (tag a f))) → Forall P (trace (relay tag events)).
Proof.
  intros Htag. rewrite relay_trace, <- relay_rest_trace. by apply relay_rest_effects.
Qed.

Lemma get_api_key_on_search_path st w key_name websocket :
  Forall on_search_path (trace (get_api_key st w key_name websocket)).
Proof. unfold get_api_key. trace_tac. Qed.
#[local] Hint Resolve get_api_key_on_search_path : traces.

Lemma synthesize_on_search_path st w text :
  Forall on_search_path (trace (synthesize st w audio text)).
Proof. unfold synthesize. trace_tac. by apply relay_effects. Qed.
#[local] Hint Resolve synthesize_on_search_path : traces.

Lemma save_chat_history_on_search_path st cid q r :
  Forall on_search_path (trace (save_chat_history st cid q r)).
Proof. unfold save_chat_history. trace_tac. Qed.
#[local] Hint Resolve save_chat_history_on_search_path : traces.

Lemma tavily_search_on_search_path st w q :
  Forall on_search_path (trace (tavily_search st w q)).
Proof. unfold tavily_search. trace_tac. Qed.
#[local] Hint Resolve tavily_search_on_search_path : traces.

Lemma send_to_zapier_on_search_path st w r :
  Forall on_search_path (trace (send_to_zapier st w r)).
Proof. unfold send_to_zapier. trace_tac. Qed.
#[local] Hint Resolve send_to_zapier_on_search_path : traces.

Lemma search_branch_on_search_path st w cid original q voice :
  Forall on_search_path (trace (search_branch st w cid original q voice)).
Proof. unfold search_branch. trace_tac. Qed.

Lemma tavily_search_nonempty st w q text :
  outcome (tavily_search st w q) = Ok text → PyStr.nonempty text = true.
Proof.
  unfold tavily_search.
  destruct (negb _); [by intros [= <-]|].
  rewrite outcome_bind.
  destruct (get_api_key_returns st w "tavily_api_key" true) as [key ->].
  rewrite outcome_bind. cbn [emit outcome snd].
  destruct (tavily w key q _) as [e|status results]; [done|].
  destruct (status =? 200).
  - destruct results; by intros [= <-].
  - rewrite outcome_bind. cbn. by intros [= <-].
Qed.

Lemma tavily_search_requests st w q :
  truthy (setting st "enableSearch" (JBool true)) = true →
  ∃ key, In (SearchRequest key q (setting st "maxSearchResults" (JInt 3)))
            (trace (tavily_search st w q)).
Proof.
  intros Hon. unfold tavily_search. rewrite Hon. cbn [negb].
  destruct (get_api_key_returns st w "tavily_api_key" true) as [key Hkey].
  exists key. eapply In_trace_bind_r; [exact Hkey|].
  apply In_trace_bind_l. by left.
Qed.

Lemma search_branch_sends st w cid original q voice text :
  outcome (tavily_search st w q) = Ok text →
  voice = false ∨ outcome (synthesize st w audio text) = Ok tt →
  In (Send (search text)) (trace (search_branch st w cid original q voice)).
Proof.
  intros Htext Hvoice. unfold search_branch.
  eapply In_trace_bind_r; [exact Htext|].
  eapply (In_trace_bind_r _ _ tt).
  { destruct Hvoice as [-> | Hsyn]; [done|]. by destruct voice. }
  apply In_trace_bind_l.
  rewrite (tavily_search_nonempty _ _ _ _ Htext). cbn [when].
  eapply (In_trace_bind_r _ _ tt).
  { unfold save_chat_history, when. by destruct (truthy _). }
  by left.
Qed.

Lemma dispatcher_search_trace st w cid query voice key :
  PyStr.strip query ≠ "" →
  outcome (get_api_key st w "gemini_api_key" true) = Ok key → key ≠ "" →
  truthy (setting st "enableSearch" (JBool true)) = true →
  has_search_cue (PyStr.lower (kb_rewrite st query)) = true →
  let branch := search_branch st w cid query (kb_rewrite st query) voice in
  trace (stream_gemini_response st w cid query voice)
  = Send (user_message query true)
      :: trace (get_api_key st w "gemini_api_key" true) ++ trace branch
      ++ match outcome branch with
         | Ok _ => []
         | Raise e => [Send (error (Text ("Error processing response: " +:+ e)))]
         end.
Proof.
  intros Hq%nonempty_true Hkey Hk%nonempty_true Hon Hcue branch.
  unfold stream_gemini_response. rewrite Hq. cbn [negb].
  rewrite trace_try_except, outcome_bind, !trace_bind. cbn [emit trace outcome fst snd app].
  rewrite outcome_bind, Hkey, Hk, Hon, Hcue. cbn [negb andb].
  fold branch. by rewrite <- app_assoc.
Qed.

Lemma on_search_path_not_model e : on_search_path e → is_model_effect e = false.
Proof. unfold on_search_path. by destruct e as [[]| | | | | | | | | | | | |]. Qed.

(** C5, as the code has it: when the query is not blank, a Gemini key
    resolves, search is enabled and the effective query (after the
    knowledge-base rewrite, lowered) contains "search", "find" or "look up",
    the turn makes a search request for the effective query, makes no model
    call and sends no [response] message; and it sends the [search] message
    with the search text whenever the search returns and, for voice input,
    the synthesis relay returns too. *)
Theorem search_cue_takes_search_branch (st : Store) (w : World)
    (cid query : string) (voice : bool) (key : string) :
  PyStr.strip query ≠ "" →
  outcome (get_api_key st w "gemini_api_key" true) = Ok key → key ≠ "" →
  truthy (setting st "enableSearch" (JBool true)) = true →
  has_search_cue (PyStr.lower (kb_rewrite st query)) = true →
  let tr := trace (stream_gemini_response st w cid query voice) in
  Forall (fun e => is_model_effect e = false) tr
  ∧ (∃ api_key max_results,
       In (SearchRequest api_key (kb_rewrite st query) max_results) tr)
  ∧ ∀ text,
      outcome (tavily_search st w (kb_rewrite st query)) = Ok text →
      voice = false ∨ outcome (synthesize st w audio text) = Ok tt →
      In (Send (search text)) tr.
Proof.
  intros Hq Hkey Hk Hon Hcue tr. subst tr.
  rewrite (dispatcher_search_trace st w cid query voice key) by done.
  repeat split.
  - constructor; [done|].
    rewrite !Forall_app. repeat split.
    + eapply Forall_impl; [apply get_api_key_on_search_path|].
      apply on_search_path_not_model.
    + eapply Forall_impl; [apply search_branch_on_search_path|].
      apply on_search_path_not_model.
    + destruct (outcome (search_branch _ _ _ _ _ _)); by repeat constructor.
  - destruct (tavily_search_requests st w (kb_rewrite st query) Hon) as [api_key Hin].
    exists api_key, (setting st "maxSearchResults" (JInt 3)).
    right. apply in_or_app. right. apply in_or_app. left.
    unfold search_branch. by apply In_trace_bind_l.
  - intros text Htext Hvoice.
    right. apply in_or_app. right. apply in_or_app. left.
    by apply search_branch_sends.
Qed.

(** [search_cue_takes_search_branch] on the query
    "search for weather today", typed, with a Gemini key in the
    environment. *)
Lemma search_cue_takes_search_branch_witness :
  let tr := trace (stream_gemini_response initial_store keyed_world "1"
                     "search for weather today" false) in
  Forall (fun e => is_model_effect e = false) tr
  ∧ In (Send (search "No search results found.")) tr.
Proof.
  intros tr.
  destruct (search_cue_takes_search_branch initial_store keyed_world "1"
              "search for weather today" false "g-key") as (H1 & _ & H3).
  - vm_compute. congruence.
  - vm_compute. reflexivity.
  - vm_compute. congruence.
  - vm_compute. reflexivity.
  - vm_compute. reflexivity.
  - split; [exact H1|]. apply H3; [vm_compute; reflexivity | by left].
Defined.

(** C5 as stated fails twice. With no Gemini key the turn of
    "search for weather today" ends on the credential error and no
    [search] message is sent. And "find the summary of my notes" holds the
    cue "find", but the knowledge-base rewrite replaces it by a text without
    a cue, the model is called and a [response] message is sent. *)
Lemma search_cue_without_search_message :
  trace (stream_gemini_response initial_store example_world "1"
           "search for weather today" false)
  = [Send (user_message "search for weather today" true);
     SendTask (error (Text "No gemini_api_key found in .env or user-provided keys"));
     Send (error (Text "No valid Gemini API key found"))]
  ∧ has_search_cue "find the summary of my notes" = true
  ∧ trace (stream_gemini_response my_notes keyed_world "1"
             "find the summary of my notes" false)
    = [Send (user_message "find the summary of my notes" true);
       ModelRequest "g-key" Casual
         (model_parts my_notes "Summarize the content of the file 'my notes.txt'");
       SaveHistory "1" "find the summary of my notes" "hi";
       Send (response "hi")].
Proof. repeat split; vm_compute; reflexivity. Qed.

(** ** One transcription connection per client connection *)

Lemma get_api_key_no_connect st w key_name websocket :
  Forall no_connect (trace (get_api_key st w key_name websocket)).
Proof. unfold get_api_key. trace_tac. Qed.
#[local] Hint Resolve get_api_key_no_connect : traces.

Lemma synthesize_no_connect st w tag text :
  (∀ a f, no_connect (Send (tag a f))) →
  Forall no_connect (trace (synthesize st w tag text)).
Proof. intros Htag. unfold synthesize. trace_tac. by apply relay_effects. Qed.

Lemma save_chat_history_no_connect st cid q r :
  Forall no_connect (trace (save_chat_history st cid q r)).
Proof. unfold save_chat_history. trace_tac. Qed.
#[local] Hint Resolve save_chat_history_no_connect : traces.

Lemma tavily_search_no_connect st w q :
  Forall no_connect (trace (tavily_search st w q)).
Proof. unfold tavily_search. trace_tac. Qed.
#[local] Hint Resolve tavily_search_no_connect : traces.

Lemma send_to_zapier_no_connect st w r :
  Forall no_connect (trace (send_to_zapier st w r)).
Proof. unfold send_to_zapier. trace_tac. Qed.
#[local] Hint Resolve send_to_zapier_no_connect : traces.

Lemma stream_gemini_response_no_connect st w cid transcript voice :
  Forall no_connect (trace (stream_gemini_response st w cid transcript voice)).
Proof.
  assert (Hsyn : ∀ text, Forall no_connect (trace (synthesize st w audio text)))
    by (intros; by apply synthesize_no_connect).
  unfold stream_gemini_response, search_branch, direct_branch, system_instruction.
  trace_tac.
Qed.
#[local] Hint Resolve stream_gemini_response_no_connect : traces.

Lemma step_no_connect cid i s : Forall no_connect (trace (step cid i s)).
Proof.
  assert (Hsyn : ∀ text,
            Forall no_connect (trace (synthesize (store i) (world i) speak_audio text)))
    by (intros; by apply synthesize_no_connect).
  unfold step, on_start, on_stop, on_text_query, on_speak, on_bytes, stream, sound.
  cbv zeta. trace_tac.
Qed.

Lemma ws_loop_no_connect cid inputs s : Forall no_connect (trace (ws_loop cid inputs s)).
Proof.
  revert s. induction inputs as [|i rest IH]; intros s; cbn [ws_loop].
  - constructor.
  - apply Forall_trace_bind; [apply step_no_connect|].
    intros [s' []]; [apply IH | constructor].
Qed.

Lemma connects_app tr1 tr2 : connects (tr1 ++ tr2) = (connects tr1 + connects tr2)%nat.
Proof. unfold connects. by rewrite List.filter_app, length_app. Qed.

Lemma connects_none tr : Forall no_connect tr → connects tr = 0%nat.
Proof.
  unfold connects, no_connect. induction 1 as [|e tr He _ IH]; [done|].
  cbn. by rewrite He.
Qed.

Lemma ws_body_connects c inputs : connects (trace (ws_body c inputs)) = 1%nat.
Proof.
  unfold ws_body.
  destruct (get_api_key_returns (setup_store c) (setup_world c) "aai_api_key" true)
    as [key Hkey].
  rewrite trace_bind, Hkey, connects_app.
  rewrite (connects_none _ (get_api_key_no_connect _ _ _ _)).
  rewrite trace_bind. cbn [emit trace outcome fst snd app].
  change (connects (BridgeConnect :: ?tr)) with (S (connects tr)).
  destruct (bridge_connect (setup_world c)); [done|].
  by rewrite (connects_none _ (ws_loop_no_connect _ _ _)).
Qed.

Lemma on_stop_closes i s :
  bridge_stream (world i) (audio_buffer s) = None →
  In BridgeClose (trace (on_stop i s)) ∧ outcome (on_stop i s) = Ok (s, Continue).
Proof.
  intros Hok. unfold on_stop, stream, sound, when. cbv zeta. rewrite Hok.
  destruct (_ <? _); [|destruct (_ && _)];
    destruct (truthy _); cbn; auto 6.
Qed.

(** C7, as the code has it: an accepted client connection opens exactly one
    streaming connection to the transcription service, during set-up, and no
    message, [start] included, opens another; every [stop] whose final flush
    the transcriber accepts calls [close] on it and keeps the loop running,
    and a handler that has ended has called [close] once more before closing
    the client connection. *)
Theorem one_connection_per_session (c : Setup) (inputs : list Input) :
  connects (fst (ws_handler c inputs))
  = (if PyStr.nonempty (chat_id c) && chat_exists c then 1 else 0)%nat
  ∧ (∀ cid i s, connects (trace (step cid i s)) = 0%nat)
  ∧ (∀ cid i s,
       msg i = Receive None (Some "stop") →
       bridge_stream (world i) (audio_buffer s) = None →
       In BridgeClose (trace (step cid i s))
       ∧ outcome (step cid i s) = Ok (s, Continue))
  ∧ (snd (ws_handler c inputs) = Closed →
     ∃ tr, fst (ws_handler c inputs) = tr ++ [BridgeClose; WsClose]).
Proof.
  split; [|split; [|split]].
  - unfold ws_handler.
    destruct (PyStr.nonempty (chat_id c)); [|done].
    destruct (chat_exists c); [|done]. cbn [negb andb].
    pose proof (ws_body_connects c inputs) as Hone.
    destruct (ws_body c inputs) as [tr [[s|s]|e]]; cbn [trace fst] in *.
    + done.
    + change (connects (WsAccept :: ?t)) with (connects t).
      by rewrite connects_app, Hone.
    + change (connects (WsAccept :: ?t)) with (connects t).
      by rewrite connects_app, Hone.
  - intros cid i s. apply connects_none, step_no_connect.
  - intros cid i s Hmsg Hok.
    rewrite (step_stop cid i s None) by auto. by apply on_stop_closes.
  - unfold ws_handler.
    destruct (negb (PyStr.nonempty (chat_id c))); [done|].
    destruct (negb (chat_exists c)); [done|].
    destruct (ws_body c inputs) as [tr [[s|s]|e]]; cbn [fst snd]; [done| |]; intros _.
    + by exists (WsAccept :: tr).
    + exists (WsAccept :: tr ++ [Send (error (Text ("WebSocket error: " +:+ e)))]).
      cbn. by rewrite <- app_assoc.
Qed.

(** [one_connection_per_session] on two turns over one client connection. *)
Lemma one_connection_per_session_witness :
  connects (fst (ws_handler example_setup two_turns)) = 1%nat
  ∧ connects (trace (step "1" (text_frame "start" 3000000 initial_store example_world)
                       {| audio_buffer := []; last_send_time := 0; start_time := Some 0 |}))
    = 0%nat.
Proof.
  destruct (one_connection_per_session example_setup two_turns) as (H1 & H2 & _).
  split; [exact H1 | apply H2].
Defined.

(** C7 as stated fails on the second turn of a connection: the only
    [connect] precedes the first message, the first [stop] closes the
    transcriber, and the second [start] opens nothing before the second
    [stop] closes it again. *)
Lemma second_turn_opens_no_connection :
  ws_handler example_setup two_turns
  = ([WsAccept;
      SendTask (error (Text "No aai_api_key found in .env or user-provided keys"));
      BridgeConnect;
      SendText "Started transcription"; Send (sound_alert "start");
      Send (error (Text
        "Insufficient audio data (0 bytes). Please speak for at least 1 second."));
      BridgeClose;
      SendText "Stopped transcription"; Send (sound_alert "stop");
      SendText "Started transcription"; Send (sound_alert "start");
      Send (error (Text
        "Insufficient audio data (0 bytes). Please speak for at least 1 second."));
      BridgeClose;
      SendText "Stopped transcription"; Send (sound_alert "stop")],
     Listening {| audio_buffer := []; last_send_time := 0; start_time := Some 3000000 |}).
Proof. vm_compute. reflexivity. Qed.

(** * Further properties of the code *)

(** ** The session: stop with too little audio *)

(** A [stop] at least 1000 ms after the recorded start, with fewer than
    88200 bytes buffered, sends the "insufficient audio" error with the byte
    count, hands nothing to the transcriber, closes it, and leaves the
    session as it was with the loop running. *)
Theorem stop_insufficient_audio (cid : string) (i : Input) (s : Session) :
  msg i = Receive None (Some "stop") →
  1000 * 1000 ≤ elapsed_since_start s (now i) →
  len (audio_buffer s) < 88200 →
  step cid i s
  = ([Send (error (Text (insufficient_msg (length (audio_buffer s)))));
      BridgeClose; SendText "Stopped transcription"]
       ++ (if truthy (setting (store i) "enableSound" (JBool true))
           then [Send (sound_alert "stop")] else []),
     Ok (s, Continue)).
Proof.
  intros Hmsg Hlong Hsmall. rewrite (step_stop cid i s None) by auto.
  unfold on_stop.
  replace (elapsed_since_start s (now i) <? MIN_AUDIO_DURATION_MS * 1000) with false
    by (symmetry; apply Z.ltb_ge; exact Hlong).
  replace (MIN_BUFFER_SIZE <=? len (audio_buffer s)) with false
    by (symmetry; apply Z.leb_gt; by rewrite MIN_BUFFER_SIZE_eq).
  rewrite andb_false_r. unfold sound, when. by destruct (truthy _).
Qed.

(** [stop_insufficient_audio] two seconds after [start] with two bytes
    buffered. *)
Lemma stop_insufficient_audio_witness :
  step "1" (text_frame "stop" 2000000 initial_store example_world)
       {| audio_buffer := [x01; x02]; last_send_time := 0; start_time := Some 0 |}
  = ([Send (error (Text
        "Insufficient audio data (2 bytes). Please speak for at least 1 second."));
      BridgeClose; SendText "Stopped transcription"; Send (sound_alert "stop")],
     Ok ({| audio_buffer := [x01; x02]; last_send_time := 0; start_time := Some 0 |},
         Continue)).
Proof.
  apply (stop_insufficient_audio "1" (text_frame "stop" 2000000 initial_store example_world)
           {| audio_buffer := [x01; x02]; last_send_time := 0; start_time := Some 0 |});
    [reflexivity | vm_compute; congruence | vm_compute; reflexivity].
Defined.

(** ** Speech synthesis relay: timeouts *)

(** A timeout on the first read raises with nothing forwarded (so does a
    service that never answers); a timeout on a later read ends the relay
    normally and what was forwarded before it stands. *)
Theorem relay_timeouts (tag : string → bool → ClientMsg) :
  (∀ rest, relay tag (MurfTimeout :: rest) = ([], Raise ""))
  ∧ (∀ base64_audio pre rest,
       Forall nonfinal_frame pre →
       relay tag (MurfFrame base64_audio false :: pre ++ MurfTimeout :: rest)
       = (forwarded tag (MurfFrame base64_audio false :: pre), Ok tt)).
Proof.
  split; [done|]. intros a pre rest Hpre.
  assert (Hrest : relay_rest tag (pre ++ MurfTimeout :: rest) = (forwarded tag pre, Ok tt)).
  { induction Hpre as [|[a' [|]| |e] pre Hx Hpre IH]; try done.
    cbn [app relay_rest]. rewrite (M_eta (_ ≫= _)), trace_bind, outcome_bind.
    rewrite outcome_forward, trace_forward, IH.
    by rewrite (forwarded_cons tag _ pre). }
  cbn [relay]. rewrite (M_eta (_ ≫= _)), trace_bind, outcome_bind.
  rewrite outcome_forward, trace_forward, Hrest.
  by rewrite (forwarded_cons tag _ pre).
Qed.

(** [relay_timeouts] on a stream that stops after two chunks. *)
Lemma relay_timeouts_witness :
  relay audio (MurfFrame "A" false :: [MurfFrame "" false; MurfFrame "B" false]
               ++ MurfTimeout :: [MurfFrame "C" true])
  = ([Send (audio "A" false); Send (audio "B" false)], Ok tt).
Proof.
  destruct (relay_timeouts audio) as [_ H].
  apply (H "A" [MurfFrame "" false; MurfFrame "B" false] [MurfFrame "C" true]).
  repeat constructor.
Defined.

(** ** Reply dispatcher: failures *)

Lemma get_api_key_missing st w key_name :
  default "" (environ w !! key_name) = "" →
  default "" (USER_API_KEYS st !! key_name) = "" →
  get_api_key st w key_name true
  = ([SendTask (error (Text (no_key_msg key_name)))], Ok "").
Proof.
  intros He Hu. unfold get_api_key. rewrite He, Hu. cbn.
  by destruct (USER_OVERRIDE_ENV st).
Qed.

(** With no Gemini key in the environment nor among the user keys, a turn
    on a non-blank query echoes the query, reports the missing credential
    twice (once scheduled by the key lookup, once sent by the dispatcher) and
    stops there: no search, no model call, no synthesis, nothing saved. *)
Theorem dispatcher_without_gemini_key (st : Store) (w : World) (cid query : string)
    (voice : bool) :
  PyStr.strip query ≠ "" →
  default "" (environ w !! "gemini_api_key") = "" →
  default "" (USER_API_KEYS st !! "gemini_api_key") = "" →
  stream_gemini_response st w cid query voice
  = ([Send (user_message query true);
      SendTask (error (Text (no_key_msg "gemini_api_key")));
      Send (error (Text "No valid Gemini API key found"))],
     Ok None).
Proof.
  intros Hq%nonempty_true He Hu. unfold stream_gemini_response.
  rewrite Hq. cbn [negb].
  rewrite (M_eta (try_except _ _)), trace_try_except, outcome_try_except.
  rewrite !outcome_bind, !trace_bind. cbn [emit trace outcome fst snd].
  rewrite (get_api_key_missing st w _ He Hu).
  reflexivity.
Qed.

(** [dispatcher_without_gemini_key] on a typed question. *)
Lemma dispatcher_without_gemini_key_witness :
  stream_gemini_response initial_store example_world "1" "what is the time" false
  = ([Send (user_message "what is the time" true);
      SendTask (error (Text "No gemini_api_key found in .env or user-provided keys"));
      Send (error (Text "No valid Gemini API key found"))],
     Ok None).
Proof.
  apply (dispatcher_without_gemini_key initial_store example_world "1"
           "what is the time" false);
    [vm_compute; congruence | reflexivity | reflexivity].
Defined.

Lemma search_branch_returns_some st w cid original q voice r :
  outcome (search_branch st w cid original q voice) = Ok r → ∃ text, r = Some text.
Proof.
  unfold search_branch. rewrite outcome_bind.
  destruct (outcome (tavily_search st w q)) as [text|e]; [|done].
  rewrite !outcome_bind.
  destruct (outcome (when voice _)); [|done].
  destruct (outcome (when (PyStr.nonempty text) _)); [|done].
  destruct (outcome (when (wants_email original) _)); [|done].
  intros [= <-]. by eexists.
Qed.

Lemma direct_branch_returns_some st w cid original q key voice r :
  outcome (direct_branch st w cid original q key voice) = Ok r → ∃ text, r = Some text.
Proof.
  unfold direct_branch. rewrite outcome_bind.
  destruct (outcome (system_instruction _)) as [sys|e]; [|done].
  rewrite outcome_bind. cbn [emit outcome snd].
  destruct (gemini w key sys _) as [text|e]; [|done].
  rewrite !outcome_bind.
  destruct (outcome (when voice _)); [|done].
  destruct (outcome (when (PyStr.nonempty text) _)); [|done].
  intros [= <-]. by eexists.
Qed.

(** The dispatcher never raises: whatever the collaborators do, it returns,
    and whenever it returns [None] the last thing it did was to send the
    client an [error] message. *)
Theorem dispatcher_reports_every_failure (st : Store) (w : World)
    (cid transcript : string) (voice : bool) :
  ∃ r, outcome (stream_gemini_response st w cid transcript voice) = Ok r
       ∧ (r = None →
          ∃ tr d, trace (stream_gemini_response st w cid transcript voice)
                  = tr ++ [Send (error d)]).
Proof.
  unfold stream_gemini_response.
  rewrite outcome_try_except, trace_try_except.
  match goal with |- context [outcome ?b] => set (body := b) end.
  destruct (outcome body) as [r|e] eqn:Hbody.
  - exists r. split; [done|]. intros ->. rewrite app_nil_r.
    subst body. revert Hbody.
    destruct (negb (PyStr.nonempty (PyStr.strip transcript))).
    { intros _. by exists [], (Text "Invalid query provided"). }
    rewrite outcome_bind, !trace_bind. cbn [emit trace outcome fst snd].
    rewrite outcome_bind.
    destruct (get_api_key_returns st w "gemini_api_key" true) as [key Hkey].
    rewrite Hkey.
    destruct (negb (PyStr.nonempty key)).
    { intros _. eexists (_ :: trace (get_api_key _ _ _ _)), _.
      cbn. reflexivity. }
    destruct (_ && _).
    + intros [? [=]]%search_branch_returns_some.
    + intros [? [=]]%direct_branch_returns_some.
  - exists None. split; [done|]. intros _. by eexists _, _.
Qed.

(** ** The session loop *)

Lemma bind_ext {A B} (m : M A) (k1 k2 : A → M B) :
  (∀ a, k1 a = k2 a) → (m ≫= k1) = (m ≫= k2).
Proof. intros Hk. destruct m as [tr [a|e]]; cbn; [by rewrite Hk | done]. Qed.

Lemma bind_silent {A B} (a : A) (k : A → M B) : (([], Ok a) : M A) ≫= k = k a.
Proof. cbn. by destruct (k a). Qed.

Lemma ws_loop_disconnect cid pre i rest s :
  msg i = Disconnect →
  ws_loop cid (pre ++ i :: rest) s = ws_loop cid (pre ++ [i]) s
  ∧ ∀ s', outcome (ws_loop cid (pre ++ [i]) s) ≠ Ok (Waiting s').
Proof.
  intros Hmsg. revert s. induction pre as [|p pre IH]; intros s; cbn [app ws_loop].
  - unfold step. rewrite Hmsg. by cbn.
  - split.
    + apply bind_ext. intros [s1 []]; [apply IH | done].
    + intros s'. rewrite outcome_bind.
      destruct (outcome (step cid p s)) as [[s1 []]|e]; [apply IH | done | done].
Qed.

(** Once a disconnect is received the loop is left: the messages after it
    are never handled, and an accepted handler does not go back to waiting
    but runs its [finally] block. *)
Theorem disconnect_ends_session (c : Setup) (pre rest : list Input) (i : Input) :
  msg i = Disconnect →
  ws_handler c (pre ++ i :: rest) = ws_handler c (pre ++ [i])
  ∧ ∀ s, snd (ws_handler c (pre ++ i :: rest)) ≠ Listening s.
Proof.
  intros Hmsg.
  assert (Heq : ws_body c (pre ++ i :: rest) = ws_body c (pre ++ [i])).
  { unfold ws_body. apply bind_ext. intros _. apply bind_ext. intros _.
    destruct (bridge_connect _); [done|]. by apply ws_loop_disconnect. }
  assert (Hsame : ws_handler c (pre ++ i :: rest) = ws_handler c (pre ++ [i]))
    by (unfold ws_handler; by rewrite Heq).
  split; [done|]. rewrite Hsame. intros s. unfold ws_handler.
  destruct (negb (PyStr.nonempty (chat_id c))); [done|].
  destruct (negb (chat_exists c)); [done|].
  destruct (ws_body c (pre ++ [i])) as [tr [[s1|s1]|e]] eqn:Hbody; cbn; try done.
  exfalso. revert Hbody. unfold ws_body.
  destruct (get_api_key_returns (setup_store c) (setup_world c) "aai_api_key" true)
    as [key Hkey].
  intros Hbody. apply (f_equal outcome) in Hbody. revert Hbody.
  rewrite outcome_bind, Hkey, outcome_bind. cbn [emit outcome snd].
  destruct (bridge_connect _); [done|].
  by apply ws_loop_disconnect.
Qed.

(** [disconnect_ends_session]: a [start] that follows a disconnect is not
    answered. *)
Lemma disconnect_ends_session_witness :
  let bye := {| msg := Disconnect; now := 10; store := initial_store;
                world := example_world |} in
  ws_handler example_setup ([] ++ bye :: two_turns) = ws_handler example_setup ([] ++ [bye]).
Proof.
  intros bye.
  by destruct (disconnect_ends_session example_setup [] two_turns bye eq_refl).
Defined.

Lemma on_bytes_early i s data :
  now i - last_send_time s < 100 * 1000 →
  on_bytes i s data
  = ([], Ok ({| audio_buffer := audio_buffer s ++ data; last_send_time := last_send_time s;
                start_time := start_time s |}, Continue)).
Proof. intros Hearly. apply on_bytes_not_due. intros [Hlate _]. lia. Qed.

Lemma ws_loop_early_frames cid frames s :
  Forall (fun i => is_binary i ∧ now i - last_send_time s < 100 * 1000) frames →
  ws_loop cid frames s
  = ([], Ok (Waiting {| audio_buffer := audio_buffer s ++ concat (map payload frames);
                        last_send_time := last_send_time s;
                        start_time := start_time s |})).
Proof.
  intros Hall. revert s Hall.
  induction frames as [|i frames IH]; intros s Hall; cbn [ws_loop map concat].
  - rewrite app_nil_r. by destruct s.
  - apply Forall_cons in Hall as [[(b & bs & text & Hmsg) Hearly] Hall].
    assert (Hp : payload i = b :: bs) by (unfold payload; by rewrite Hmsg).
    rewrite (step_bytes cid i s b bs text Hmsg), (on_bytes_early _ _ _ Hearly), Hp.
    rewrite bind_silent. rewrite IH by done. cbn [audio_buffer last_send_time start_time].
    by rewrite <- app_assoc.
Qed.

Lemma ws_loop_app cid l1 l2 s s1 :
  ws_loop cid l1 s = ([], Ok (Waiting s1)) →
  ws_loop cid (l1 ++ l2) s = ws_loop cid l2 s1.
Proof.
  revert s. induction l1 as [|i l1 IH]; intros s; cbn [app ws_loop].
  - by intros [= ->].
  - destruct (step cid i s) as [tr [[s' []]|e]] eqn:Hstep; cbn; try done.
    destruct (ws_loop cid l1 s') as [tr' r] eqn:Hloop. cbn.
    intros [= Htr ->]. apply app_eq_nil in Htr as [-> ->].
    rewrite (IH s') by done. by destruct (ws_loop cid l2 s1).
Qed.

(** Binary frames that arrive within 100 ms of [last_send_time] are only
    buffered, in arrival order and without any effect; the first frame that
    comes later, once 88200 bytes are there, hands the transcriber the
    buffer followed by every frame since, in order, and nothing else is
    handed over. *)
Theorem frames_accumulate_in_order (cid : string) (frames : list Input) (late : Input)
    (s : Session) :
  Forall (fun i => is_binary i ∧ now i - last_send_time s < 100 * 1000) frames →
  is_binary late →
  100 * 1000 ≤ now late - last_send_time s →
  88200 ≤ len (audio_buffer s ++ concat (map payload (frames ++ [late]))) →
  trace (ws_loop cid frames s) = []
  ∧ chunks (trace (ws_loop cid (frames ++ [late]) s))
    = [audio_buffer s ++ concat (map payload (frames ++ [late]))].
Proof.
  intros Hall (b & bs & text & Hmsg) Hlate Hbig.
  pose proof (ws_loop_early_frames cid frames s Hall) as Hloop.
  split; [by rewrite Hloop|].
  rewrite (ws_loop_app _ _ _ _ _ Hloop). cbn [ws_loop].
  assert (Hp : payload late = b :: bs) by (unfold payload; by rewrite Hmsg).
  rewrite map_app, concat_app in *. cbn [map concat] in *.
  rewrite Hp, app_nil_r in *.
  rewrite trace_bind, (step_bytes cid late _ b bs text Hmsg).
  rewrite on_bytes_due; [|split; cbn; [done | by rewrite <- app_assoc]].
  cbn [audio_buffer]. rewrite <- app_assoc.
  destruct (bridge_stream _ _); reflexivity.
Qed.

(** [frames_accumulate_in_order] on two early one-byte frames after one
    second of buffered audio, then a late one. *)
Lemma frames_accumulate_in_order_witness :
  let s := {| audio_buffer := second_of_audio; last_send_time := 0; start_time := Some 0 |} in
  let f t b := binary_frame [b] t initial_store example_world in
  chunks (trace (ws_loop "1" ([f 10000 x01; f 20000 x02] ++ [f 150000 x03]) s))
  = [audio_buffer s
     ++ concat (map payload ([f 10000 x01; f 20000 x02] ++ [f 150000 x03]))].
Proof.
  intros s f.
  apply (frames_accumulate_in_order "1" [f 10000 x01; f 20000 x02] (f 150000 x03) s).
  - repeat constructor; try (by eexists _, _, _); vm_compute; reflexivity.
  - by eexists _, _, _.
  - vm_compute. congruence.
  - vm_compute. congruence.
Defined.

(** ** The session: typed queries and speak commands *)

Lemma stream_gemini_response_returns st w cid transcript voice :
  ∃ r, outcome (stream_gemini_response st w cid transcript voice) = Ok r.
Proof.
  unfold stream_gemini_response. rewrite outcome_try_except.
  match goal with |- context [outcome ?b] => destruct (outcome b) end; by eexists.
Qed.

Lemma get_api_key_no_bridge st w key_name websocket :
  Forall no_bridge (trace (get_api_key st w key_name websocket)).
Proof. unfold get_api_key. trace_tac. Qed.
#[local] Hint Resolve get_api_key_no_bridge : traces.

Lemma synthesize_no_bridge st w tag text :
  (∀ a f, no_bridge (Send (tag a f))) →
  Forall no_bridge (trace (synthesize st w tag text)).
Proof. intros Htag. unfold synthesize. trace_tac. by apply relay_effects. Qed.

Lemma save_chat_history_no_bridge st cid q r :
  Forall no_bridge (trace (save_chat_history st cid q r)).
Proof. unfold save_chat_history. trace_tac. Qed.
#[local] Hint Resolve save_chat_history_no_bridge : traces.

Lemma tavily_search_no_bridge st w q :
  Forall no_bridge (trace (tavily_search st w q)).
Proof. unfold tavily_search. trace_tac. Qed.
#[local] Hint Resolve tavily_search_no_bridge : traces.

Lemma send_to_zapier_no_bridge st w r :
  Forall no_bridge (trace (send_to_zapier st w r)).
Proof. unfold send_to_zapier. trace_tac. Qed.
#[local] Hint Resolve send_to_zapier_no_bridge : traces.

Lemma stream_gemini_response_no_bridge st w cid transcript voice :
  Forall no_bridge (trace (stream_gemini_response st w cid transcript voice)).
Proof.
  assert (Hsyn : ∀ text, Forall no_bridge (trace (synthesize st w audio text)))
    by (intros; by apply synthesize_no_bridge).
  unfold stream_gemini_response, search_branch, direct_branch, system_instruction.
  trace_tac.
Qed.

Lemma text_command_not_control data :
  PyStr.startswith "text:" data = true →
  String.eqb data "start" = false ∧ String.eqb data "stop" = false.
Proof.
  destruct data as [|c data]; [done|].
  change (PyStr.startswith "text:" (String c data))
    with (if Ascii.eqb "t" c then PyStr.startswith "ext:" data else false).
  destruct (Ascii.eqb_spec "t" c) as [<-|]; [|done].
  intros _. split; reflexivity.
Qed.

(** A [text:] command never ends the session and never reaches the
    transcriber: whatever the dispatcher and its collaborators do, the loop
    goes on with the session (buffer, timers) unchanged, and no
    [connect], [stream] or [close] is called. *)
Theorem text_command_is_contained (cid : string) (i : Input) (s : Session)
    (data : string) :
  msg i = Receive None (Some data) →
  PyStr.startswith "text:" data = true →
  outcome (step cid i s) = Ok (s, Continue)
  ∧ Forall no_bridge (trace (step cid i s)).
Proof.
  intros Hmsg Htext.
  destruct (text_command_not_control data Htext) as [Hstart Hstop].
  unfold step. rewrite Hmsg. cbn [data_of]. rewrite Hstart, Hstop, Htext.
  unfold on_text_query. split.
  - rewrite outcome_bind.
    destruct (PyStr.nonempty _); [|done]. cbn [when].
    rewrite outcome_bind.
    destruct (stream_gemini_response_returns (store i) (world i) cid
                (PyStr.strip (PyStr.drop 5 data)) false) as [r ->].
    done.
  - apply Forall_trace_bind; [|intros; constructor].
    apply Forall_trace_when, Forall_trace_bind; [|intros; constructor].
    apply stream_gemini_response_no_bridge.
Qed.

(** [text_command_is_contained] on a typed question while one second of
    audio is buffered. *)
Lemma text_command_is_contained_witness :
  let s := {| audio_buffer := second_of_audio; last_send_time := 0; start_time := Some 0 |} in
  let i := text_frame "text: what is the time" 500000 initial_store keyed_world in
  outcome (step "1" i s) = Ok (s, Continue).
Proof.
  intros s i.
  by destruct (text_command_is_contained "1" i s "text: what is the time" eq_refl eq_refl).
Defined.

Lemma speak_command_not_control data :
  PyStr.startswith "speak:" data = true →
  String.eqb data "start" = false ∧ String.eqb data "stop" = false
  ∧ PyStr.startswith "text:" data = false.
Proof.
  destruct data as [|c data]; [done|].
  change (PyStr.startswith "speak:" (String c data))
    with (if Ascii.eqb "s" c then PyStr.startswith "peak:" data else false).
  destruct (Ascii.eqb_spec "s" c) as [<-|]; [|done].
  destruct data as [|c' data]; [done|].
  change (PyStr.startswith "peak:" (String c' data))
    with (if Ascii.eqb "p" c' then PyStr.startswith "eak:" data else false).
  destruct (Ascii.eqb_spec "p" c') as [<-|]; [|done].
  intros _. repeat split; reflexivity.
Qed.

(** A [speak:] command whose synthesis raises (the service cannot be
    reached, or its first frame does not come within 10 s) ends the whole
    session: the exception leaves the loop, the client is told
    "WebSocket error", the transcriber and the client connection are
    closed. *)
Theorem speak_failure_closes_session (c : Setup) (i : Input) (data : string) (e : Exn) :
  PyStr.nonempty (chat_id c) = true → chat_exists c = true →
  bridge_connect (setup_world c) = None →
  msg i = Receive None (Some data) →
  PyStr.startswith "speak:" data = true →
  PyStr.strip (PyStr.drop 6 data) ≠ "" →
  outcome (synthesize (store i) (world i) speak_audio (PyStr.strip (PyStr.drop 6 data)))
  = Raise e →
  snd (ws_handler c [i]) = Closed
  ∧ ∃ tr, fst (ws_handler c [i])
          = tr ++ [Send (error (Text ("WebSocket error: " +:+ e))); BridgeClose; WsClose].
Proof.
  intros Hid Hex Hconn Hmsg Hspeak Htext%nonempty_true Hsyn.
  destruct (speak_command_not_control data Hspeak) as (Hstart & Hstop & Hnot).
  assert (Hstep : ∀ s, outcome (step (chat_id c) i s) = Raise e).
  { intros s. unfold step. rewrite Hmsg. cbn [data_of].
    rewrite Hstart, Hstop, Hnot, Hspeak. unfold on_speak.
    rewrite outcome_bind, Htext. cbn [when]. by rewrite Hsyn. }
  assert (Hbody : outcome (ws_body c [i]) = Raise e).
  { unfold ws_body.
    destruct (get_api_key_returns (setup_store c) (setup_world c) "aai_api_key" true)
      as [key Hkey].
    rewrite outcome_bind, Hkey, outcome_bind. cbn [emit outcome snd].
    rewrite Hconn. cbn [ws_loop]. by rewrite outcome_bind, Hstep. }
  unfold ws_handler. rewrite Hid, Hex. cbn [negb].
  destruct (ws_body c [i]) as [tr r]. cbn [outcome snd] in Hbody. subst r.
  split; [done|]. exists (WsAccept :: tr). reflexivity.
Qed.

(** [speak_failure_closes_session] when the synthesis service never
    answers. *)
Lemma speak_failure_closes_session_witness :
  let silent := {| environ := ∅; tavily := tavily example_world;
                   gemini := gemini example_world;
                   murf := fun _ _ _ _ => MurfStream [];
                   zapier_post := zapier_post example_world;
                   bridge_connect := None; bridge_stream := fun _ => None;
                   settings_write := fun _ => None |} in
  snd (ws_handler example_setup [text_frame "speak: hello" 10 initial_store silent]) = Closed.
Proof.
  intros silent.
  destruct (speak_failure_closes_session example_setup
              (text_frame "speak: hello" 10 initial_store silent) "speak: hello" "")
    as [H _];
    [reflexivity | reflexivity | reflexivity | reflexivity | reflexivity
    | vm_compute; congruence | vm_compute; reflexivity | exact H].
Defined.

(** ** Reply dispatcher: what is saved *)

Lemma get_api_key_plumbing st w key_name websocket :
  Forall plumbing (trace (get_api_key st w key_name websocket)).
Proof. unfold get_api_key. trace_tac. Qed.
#[local] Hint Resolve get_api_key_plumbing : traces.

Lemma synthesize_plumbing st w text :
  Forall plumbing (trace (synthesize st w audio text)).
Proof. unfold synthesize. trace_tac. by apply relay_effects. Qed.

Lemma tavily_search_plumbing st w q :
  Forall plumbing (trace (tavily_search st w q)).
Proof. unfold tavily_search. trace_tac. Qed.

Lemma send_to_zapier_plumbing st w r :
  Forall plumbing (trace (send_to_zapier st w r)).
Proof. unfold send_to_zapier. trace_tac. Qed.

Lemma saves_app tr1 tr2 : saves (tr1 ++ tr2) = (saves tr1 + saves tr2)%nat.
Proof. unfold saves. by rewrite List.filter_app, length_app. Qed.

Lemma saves_plumbing tr : Forall plumbing tr → saves tr = 0%nat.
Proof.
  unfold saves, plumbing. induction 1 as [|e tr He _ IH]; [done|].
  cbn. by destruct e as [[]| | | | | | | | | | | | |].
Qed.

Lemma saves_bind_le {A B} (n p q : nat) (m : M A) (k : A → M B) :
  (n + p ≤ q)%nat →
  (saves (trace m) ≤ n)%nat → (∀ a, (saves (trace (k a)) ≤ p)%nat) →
  (saves (trace (m ≫= k)) ≤ q)%nat.
Proof.
  intros Hq Hm Hk. rewrite trace_bind, saves_app.
  destruct (outcome m) as [a|e]; [specialize (Hk a) | cbn]; lia.
Qed.

Lemma saves_when_plumbing (b : bool) (m : M unit) :
  Forall plumbing (trace m) → (saves (trace (when b m)) ≤ 0)%nat.
Proof. intros Hm. destruct b; cbn; [by rewrite saves_plumbing | done]. Qed.

Lemma saves_save_chat_history st cid q r :
  (saves (trace (save_chat_history st cid q r)) ≤ 1)%nat.
Proof. unfold save_chat_history, when. destruct (truthy _); cbn; lia. Qed.

Lemma search_branch_saves st w cid original q voice :
  (saves (trace (search_branch st w cid original q voice)) ≤ 1)%nat.
Proof.
  unfold search_branch.
  apply (saves_bind_le 0 1); [lia | by rewrite saves_plumbing by apply tavily_search_plumbing |].
  intros text.
  apply (saves_bind_le 0 1); [lia | apply saves_when_plumbing, synthesize_plumbing |].
  intros _. apply (saves_bind_le 1 0); [lia | |].
  - destruct (PyStr.nonempty text); [|cbn; lia]. cbn [when].
    apply (saves_bind_le 1 0); [lia | apply saves_save_chat_history | by intros].
  - intros _. apply (saves_bind_le 0 0);
      [lia | apply saves_when_plumbing, send_to_zapier_plumbing | by intros].
Qed.

Lemma direct_branch_saves st w cid original q key voice :
  (saves (trace (direct_branch st w cid original q key voice)) ≤ 1)%nat.
Proof.
  unfold direct_branch.
  apply (saves_bind_le 0 1); [lia | |].
  { unfold system_instruction.
    destruct (setting _ _ _) as [| | | |c| |]; try done.
    by repeat destruct (String.eqb _ _). }
  intros sys. apply (saves_bind_le 0 1); [lia | done |]. intros _.
  destruct (gemini w key sys _) as [text|e]; [|cbn; lia].
  apply (saves_bind_le 0 1); [lia | apply saves_when_plumbing, synthesize_plumbing |].
  intros _. apply (saves_bind_le 1 0); [lia | | by intros].
  destruct (PyStr.nonempty text); [|cbn; lia]. cbn [when].
  apply (saves_bind_le 1 0); [lia | apply saves_save_chat_history |].
  intros _. apply (saves_bind_le 0 0); [lia | done |].
  intros _. apply saves_when_plumbing, send_to_zapier_plumbing.
Qed.

Lemma plumbing_this_exchange cid original tr :
  Forall plumbing tr → Forall (this_exchange cid original) tr.
Proof.
  intros Htr. eapply Forall_impl; [exact Htr|].
  intros e He c u r ->. discriminate He.
Qed.

Lemma save_chat_history_this_exchange st cid original text :
  PyStr.nonempty text = true →
  Forall (this_exchange cid original) (trace (save_chat_history st cid original text)).
Proof.
  intros Htext%nonempty_true. unfold save_chat_history, when.
  destruct (truthy _); [|constructor].
  constructor; [|constructor]. by intros c' u' r' [= <- <- <-].
Qed.

Lemma send_this_exchange cid original m :
  Forall (this_exchange cid original) (trace (emit (Send m))).
Proof. constructor; [|constructor]. intros c' u' r' [=]. Qed.

Lemma search_branch_this_exchange st w cid original q voice :
  Forall (this_exchange cid original) (trace (search_branch st w cid original q voice)).
Proof.
  unfold search_branch.
  apply Forall_trace_bind; [apply plumbing_this_exchange, tavily_search_plumbing|].
  intros text. apply Forall_trace_bind.
  { apply Forall_trace_when, plumbing_this_exchange, synthesize_plumbing. }
  intros _. apply Forall_trace_bind.
  { destruct (PyStr.nonempty text) eqn:Htext; [|constructor]. cbn [when].
    apply Forall_trace_bind; [by apply save_chat_history_this_exchange|].
    intros _. apply send_this_exchange. }
  intros _. apply Forall_trace_bind; [|intros; constructor].
  apply Forall_trace_when, plumbing_this_exchange, send_to_zapier_plumbing.
Qed.

Lemma direct_branch_this_exchange st w cid original q key voice :
  Forall (this_exchange cid original)
    (trace (direct_branch st w cid original q key voice)).
Proof.
  unfold direct_branch.
  apply Forall_trace_bind.
  { unfold system_instruction.
    destruct (setting _ _ _) as [| | | |c| |]; try constructor.
    repeat destruct (String.eqb _ _); constructor. }
  intros sys. apply Forall_trace_bind.
  { constructor; [|constructor]. intros c' u' r' [=]. }
  intros _. destruct (gemini w key sys _) as [text|e]; [|constructor].
  apply Forall_trace_bind.
  { apply Forall_trace_when, plumbing_this_exchange, synthesize_plumbing. }
  intros _. apply Forall_trace_bind; [|intros; constructor].
  destruct (PyStr.nonempty text) eqn:Htext; [|constructor]. cbn [when].
  apply Forall_trace_bind; [by apply save_chat_history_this_exchange|].
  intros _. apply Forall_trace_bind; [apply send_this_exchange|].
  intros _. apply Forall_trace_when, plumbing_this_exchange, send_to_zapier_plumbing.
Qed.

Lemma saves_try_le {A} (n : nat) (m : M A) (h : Exn → M A) :
  (saves (trace m) ≤ n)%nat → (∀ e, saves (trace (h e)) = 0%nat) →
  (saves (trace (try_except m h)) ≤ n)%nat.
Proof.
  intros Hm Hh. rewrite trace_try_except, saves_app.
  destruct (outcome m) as [a|e]; [cbn | rewrite Hh]; lia.
Qed.

Lemma saves_none tr : Forall (fun e => is_save e = false) tr → saves tr = 0%nat.
Proof.
  unfold saves. induction 1 as [|e tr He _ IH]; [done|]. cbn. by rewrite He.
Qed.

(** One turn of the dispatcher saves at most one exchange, and what it
    saves is the chat of the turn, the query as it came in (not its
    knowledge-base rewrite) and a reply that is not empty; with
    [autoSaveHistory] off it saves nothing. *)
Theorem history_saved_at_most_once (st : Store) (w : World) (cid transcript : string)
    (voice : bool) :
  (saves (trace (stream_gemini_response st w cid transcript voice)) ≤ 1)%nat
  ∧ (∀ c u r,
       In (SaveHistory c u r) (trace (stream_gemini_response st w cid transcript voice)) →
       c = cid ∧ u = transcript ∧ r ≠ "")
  ∧ (truthy (setting st "autoSaveHistory" (JBool true)) = false →
     saves (trace (stream_gemini_response st w cid transcript voice)) = 0%nat).
Proof.
  split; [|split].
  - unfold stream_gemini_response. apply saves_try_le; [|done].
    destruct (negb (PyStr.nonempty (PyStr.strip transcript))); [cbn; lia|].
    apply (saves_bind_le 0 1); [lia | done |]. intros _.
    apply (saves_bind_le 0 1);
      [lia | by rewrite saves_plumbing by apply get_api_key_plumbing |].
    intros key. destruct (negb (PyStr.nonempty key)); [cbn; lia|].
    destruct (_ && _); [apply search_branch_saves | apply direct_branch_saves].
  - assert (Hall : Forall (this_exchange cid transcript)
                     (trace (stream_gemini_response st w cid transcript voice))).
    { unfold stream_gemini_response.
      apply Forall_trace_try;
        [|intros e; apply Forall_trace_bind;
                      [apply send_this_exchange | intros; constructor]].
      destruct (negb (PyStr.nonempty (PyStr.strip transcript))).
      { apply Forall_trace_bind; [apply send_this_exchange | intros; constructor]. }
      apply Forall_trace_bind; [apply send_this_exchange|]. intros _.
      apply Forall_trace_bind; [apply plumbing_this_exchange, get_api_key_plumbing|].
      intros key. destruct (negb (PyStr.nonempty key)).
      { apply Forall_trace_bind; [apply send_this_exchange | intros; constructor]. }
      destruct (_ && _);
        [apply search_branch_this_exchange | apply direct_branch_this_exchange]. }
    intros c u r Hin%list_elem_of_In. rewrite Forall_forall in Hall.
    by apply (Hall _ Hin).
  - intros Hoff. apply saves_none.
    assert (Hsave : ∀ c q r, Forall (fun e => is_save e = false)
                               (trace (save_chat_history st c q r))).
    { intros. unfold save_chat_history. rewrite Hoff. constructor. }
    assert (Hsyn : ∀ text, Forall (fun e => is_save e = false)
                             (trace (synthesize st w audio text))).
    { intros. eapply Forall_impl; [apply synthesize_plumbing|].
      by intros [[]| | | | | | | | | | | | |]. }
    assert (Hkey : ∀ k b, Forall (fun e => is_save e = false)
                            (trace (get_api_key st w k b))).
    { intros. eapply Forall_impl; [apply get_api_key_plumbing|].
      by intros [[]| | | | | | | | | | | | |]. }
    unfold stream_gemini_response, search_branch, direct_branch, system_instruction,
      tavily_search, send_to_zapier.
    trace_tac.
Qed.

(** [history_saved_at_most_once] on a spoken question that is answered,
    synthesized and saved once, against the same turn with saving off. *)
Lemma history_saved_at_most_once_witness :
  let quiet := {| USER_API_KEYS := ∅; USER_OVERRIDE_ENV := false;
                  USER_SETTINGS := <[ "autoSaveHistory" := JBool false ]> default_settings;
                  KNOWLEDGE_BASE := [] |} in
  saves (trace (stream_gemini_response initial_store keyed_world "1" "hello there" true))
  = 1%nat
  ∧ saves (trace (stream_gemini_response quiet keyed_world "1" "hello there" true)) = 0%nat.
Proof.
  intros quiet. split; [vm_compute; reflexivity|].
  destruct (history_saved_at_most_once quiet keyed_world "1" "hello there" true)
    as (_ & _ & H).
  apply H. vm_compute. reflexivity.
Defined.

(** ** Reply dispatcher: a reply that is lost, an error that is the reply *)

Lemma system_instruction_silent v : trace (system_instruction v) = [].
Proof.
  unfold system_instruction. destruct v; try done.
  by repeat destruct (String.eqb _ _).
Qed.

Lemma plumbing_not_reply tr : Forall plumbing tr → Forall (fun e => is_reply e = false) tr.
Proof.
  intros Htr. eapply Forall_impl; [exact Htr|].
  by intros [[]| | | | | | | | | | | | |].
Qed.

(** For voice input the reply is synthesized before it is sent: when the
    model has answered and the synthesis raises (service unreachable, no
    first frame within 10 s), the turn ends on an error message and the
    model's reply is neither sent as a [response] nor saved. *)
Theorem synthesis_failure_drops_reply (st : Store) (w : World) (cid query key : string)
    (sys : SystemInstruction) (text : string) (e : Exn) :
  PyStr.strip query ≠ "" →
  outcome (get_api_key st w "gemini_api_key" true) = Ok key → key ≠ "" →
  truthy (setting st "enableSearch" (JBool true))
  && has_search_cue (PyStr.lower (kb_rewrite st query)) = false →
  outcome (system_instruction (setting st "conversationType" (JStr "casual"))) = Ok sys →
  gemini w key sys (model_parts st (kb_rewrite st query)) = Ok text →
  outcome (synthesize st w audio text) = Raise e →
  outcome (stream_gemini_response st w cid query true) = Ok None
  ∧ In (ModelRequest key sys (model_parts st (kb_rewrite st query)))
       (trace (stream_gemini_response st w cid query true))
  ∧ In (Send (error (Text ("Error processing response: " +:+ e))))
       (trace (stream_gemini_response st w cid query true))
  ∧ Forall (fun e => is_reply e = false)
       (trace (stream_gemini_response st w cid query true)).
Proof.
  intros Hq%nonempty_true Hkey Hk%nonempty_true Hcue Hsys Hmodel Hsyn.
  assert (Hdirect : direct_branch st w cid query (kb_rewrite st query) key true
                    = (ModelRequest key sys (model_parts st (kb_rewrite st query))
                         :: trace (synthesize st w audio text), Raise e)).
  { unfold direct_branch.
    rewrite (M_eta (system_instruction _)), system_instruction_silent, Hsys, bind_silent.
    rewrite (M_eta (_ ≫= _)), trace_bind, outcome_bind. cbn [emit trace outcome fst snd].
    rewrite Hmodel, trace_bind, outcome_bind. cbn [when].
    by rewrite Hsyn, app_nil_r. }
  assert (Htrace : trace (stream_gemini_response st w cid query true)
                   = Send (user_message query true)
                       :: trace (get_api_key st w "gemini_api_key" true)
                       ++ (ModelRequest key sys (model_parts st (kb_rewrite st query))
                             :: trace (synthesize st w audio text))
                       ++ [Send (error (Text ("Error processing response: " +:+ e)))]).
  { unfold stream_gemini_response. rewrite Hq. cbn [negb].
    rewrite trace_try_except, outcome_bind, !trace_bind.
    cbn [emit trace outcome fst snd app].
    rewrite outcome_bind, Hkey, Hk, Hcue. cbn [negb]. rewrite Hdirect.
    cbn [trace outcome fst snd]. by rewrite <- app_assoc. }
  split; [|rewrite Htrace; repeat split].
  - unfold stream_gemini_response. rewrite Hq. cbn [negb].
    rewrite outcome_try_except, !outcome_bind. cbn [emit outcome snd].
    rewrite Hkey, Hk, Hcue. cbn [negb]. by rewrite Hdirect.
  - right. apply in_or_app. right. by left.
  - right. apply in_or_app. right. apply in_or_app. right. by left.
  - constructor; [done|]. rewrite !Forall_app. repeat split.
    + apply plumbing_not_reply, get_api_key_plumbing.
    + constructor; [done|]. apply plumbing_not_reply, synthesize_plumbing.
    + by repeat constructor.
Qed.

(** [synthesis_failure_drops_reply] on a spoken greeting when the synthesis
    service never answers. *)
Lemma synthesis_failure_drops_reply_witness :
  stream_gemini_response initial_store failing_world "1" "hello there" true
  = ([Send (user_message "hello there" true);
      ModelRequest "g-key" Casual ["hello there"];
      SendTask (error (Text "No murf_api_key found in .env or user-provided keys"));
      MurfRequest "" (JStr "en-IN-alia") (JFloat 1.0) "hi";
      Send (error (Text "Error processing response: "))],
     Ok None)
  ∧ Forall (fun e => is_reply e = false)
      (trace (stream_gemini_response initial_store failing_world "1" "hello there" true)).
Proof.
  split; [vm_compute; reflexivity|].
  destruct (synthesis_failure_drops_reply initial_store failing_world "1" "hello there"
              "g-key" Casual "hi" "") as (_ & _ & _ & H);
    [vm_compute; congruence | vm_compute; reflexivity | vm_compute; congruence
    | vm_compute; reflexivity | vm_compute; reflexivity | vm_compute; reflexivity
    | vm_compute; reflexivity | exact H].
Defined.





(** ** Knowledge-base rewrite: which document is named *)

(** [kb_rewrite_first_match] with three documents of which the second and
    the third share a word with the query: the second is named. *)
Lemma kb_rewrite_first_match_witness :
  kb_rewrite three_documents "give me a summary of my notes"
  = "Summarize the content of the file 'my notes.txt'".
Proof.
  apply (kb_rewrite_first_match three_documents "give me a summary of my notes"
           [("report.txt", "r")] "my notes.txt" "n" [("notes of may.txt", "m")]).
  - vm_compute. reflexivity.
  - vm_compute. reflexivity.
  - reflexivity.
  - constructor; [|constructor].
    assert (H : bool_decide (words "give me a summary of my notes" ∩ words "report.txt" = ∅)
                = true) by (vm_compute; reflexivity).
    by apply bool_decide_eq_true_1 in H.
  - assert (H : bool_decide (words "give me a summary of my notes" ∩ words "my notes.txt" ≠ ∅)
                = true) by (vm_compute; reflexivity).
    by apply bool_decide_eq_true_1 in H.
Defined.

Lemma rewrite_loop_cases query_words kb transcript :
  rewrite_loop query_words kb transcript = transcript
  ∨ ∃ filename content,
      In (filename, content) kb
      ∧ query_words ∩ words filename ≠ ∅
      ∧ rewrite_loop query_words kb transcript = rewritten filename.
Proof.
  induction kb as [|[f c] kb IH]; [by left|]. cbn [rewrite_loop].
  destruct (bool_decide (query_words ∩ words f ≠ ∅)) eqn:Hhit.
  - right. exists f, c. apply bool_decide_eq_true_1 in Hhit. split; [by left | done].
  - destruct IH as [->|(f' & c' & Hin & Hne & ->)]; [by left|].
    right. exists f', c'. split; [by right | done].
Qed.

(** The effective query is either the query itself or the fixed sentence
    naming a document that is in the knowledge base and whose normalised
    name shares a word with the normalised query; the latter only with the
    option on and "summary" in the lowered query. *)
Theorem kb_rewrite_names_known_document (st : Store) (query : string) :
  kb_rewrite st query = query
  ∨ ∃ filename content,
      In (filename, content) (KNOWLEDGE_BASE st)
      ∧ words query ∩ words filename ≠ ∅
      ∧ truthy (setting st "includeKnowledgeBase" (JBool true)) = true
      ∧ PyStr.contains "summary" (PyStr.lower query) = true
      ∧ kb_rewrite st query = rewritten filename.
Proof.
  unfold kb_rewrite.
  destruct (truthy _) eqn:Hon; [|by left].
  destruct (PyStr.contains _ _) eqn:Hsum; [|by left]. cbn [andb].
  destruct (rewrite_loop_cases (words query) (KNOWLEDGE_BASE st) query)
    as [->|(f & c & Hin & Hne & ->)]; [by left|].
  right. by exists f, c.
Qed.

(** ** Uploaded file names *)

Lemma sanitize_filename_chars filename :
  Forall (fun c => is_filename_char c = true)
    (list_ascii_of_string (sanitize_filename filename)).
Proof.
  induction filename as [|c rest IH]; [constructor|]. cbn [sanitize_filename].
  destruct (is_filename_char c) eqn:Hc; [|done]. by constructor.
Qed.

Lemma sanitize_filename_fixed s :
  Forall (fun c => is_filename_char c = true) (list_ascii_of_string s) →
  sanitize_filename s = s.
Proof.
  induction s as [|c rest IH]; [done|]. cbn [list_ascii_of_string sanitize_filename].
  intros [Hc Hrest]%Forall_cons. by rewrite Hc, IH.
Qed.

Lemma no_such_char (c : ascii) s :
  is_filename_char c = false →
  Forall (fun c' => is_filename_char c' = true) (list_ascii_of_string s) →
  PyStr.contains (String c "") s = false.
Proof.
  intros Hc. induction s as [|c' rest IH]; [done|].
  cbn [list_ascii_of_string]. intros [Hc' Hrest]%Forall_cons.
  change (PyStr.contains (String c "") (String c' rest))
    with ((if Ascii.eqb c c' then true else false) || PyStr.contains (String c "") rest).
  rewrite IH by done.
  destruct (Ascii.eqb_spec c c') as [->|]; [congruence | done].
Qed.

(** A sanitized file name holds only word characters, white space, dots
    and hyphens: every other character of the uploaded name is gone, in
    particular the path separator, and sanitizing again changes nothing. *)
Theorem sanitize_filename_safe (filename : string) :
  sanitize_filename (sanitize_filename filename) = sanitize_filename filename
  ∧ PyStr.contains "/" (sanitize_filename filename) = false
  ∧ ∀ c, is_filename_char c = false →
         PyStr.contains (String c "") (sanitize_filename filename) = false.
Proof.
  pose proof (sanitize_filename_chars filename) as Hchars.
  split; [by apply sanitize_filename_fixed|].
  split; [by apply no_such_char|].
  intros c Hc. by apply no_such_char.
Qed.

(** ** User keys *)

Lemma set_api_keys_lookup keys st k :
  USER_API_KEYS (set_api_keys keys st).1 !! k
  = if storable k
    then match keys !! k with Some v => Some v | None => USER_API_KEYS st !! k end
    else USER_API_KEYS st !! k.
Proof.
  cbn [set_api_keys fst USER_API_KEYS].
  rewrite lookup_union.
  destruct (storable k) eqn:Hk.
  - destruct (keys !! k) as [v|] eqn:Hv.
    + erewrite map_lookup_filter_Some_2; [|exact Hv|exact Hk].
      by destruct (USER_API_KEYS st !! k).
    + rewrite (proj2 (map_lookup_filter_None _ _ _)); [|by left].
      by destruct (USER_API_KEYS st !! k).
  - rewrite (proj2 (map_lookup_filter_None _ _ _)).
    + by destruct (USER_API_KEYS st !! k).
    + right. intros v _. cbn. congruence.
Qed.

(** Only the four service keys and the webhook URL are ever stored: if the
    stored names were among them before [POST /set_keys], they are
    afterwards, whatever the request holds; other entries of the request,
    the ["override_env"] flag included, are not stored, and stored keys the
    request does not mention are kept. *)
Theorem set_api_keys_stores_known_names (keys : gmap string string) (st : Store) :
  (∀ k, is_Some (USER_API_KEYS st !! k) → storable k = true) →
  (∀ k, is_Some (USER_API_KEYS (set_api_keys keys st).1 !! k) → storable k = true)
  ∧ USER_API_KEYS (set_api_keys keys st).1 !! "override_env" = None
  ∧ ∀ k, keys !! k = None →
         USER_API_KEYS (set_api_keys keys st).1 !! k = USER_API_KEYS st !! k.
Proof.
  intros Hold. split; [|split].
  - intros k. rewrite set_api_keys_lookup.
    destruct (storable k) eqn:Hk; [done|].
    intros Hs. specialize (Hold k Hs). congruence.
  - rewrite set_api_keys_lookup. change (storable "override_env") with false.
    destruct (USER_API_KEYS st !! "override_env") eqn:Ho; [|done].
    by specialize (Hold "override_env" (mk_is_Some _ _ Ho)).
  - intros k Hk. rewrite set_api_keys_lookup, Hk. by destruct (storable k).
Qed.

(** [set_api_keys_stores_known_names] on a request with a key of an unknown
    name. *)
Lemma set_api_keys_stores_known_names_witness :
  let keys : gmap string string :=
    {[ "murf_api_key" := "m"; "override_env" := "true"; "openai_api_key" := "o" ]} in
  USER_API_KEYS (set_api_keys keys initial_store).1 !! "override_env" = None.
Proof.
  intros keys.
  destruct (set_api_keys_stores_known_names keys initial_store) as (_ & H & _);
    [|exact H].
  intros k [v Hv]. cbn [initial_store USER_API_KEYS] in Hv.
  by rewrite lookup_empty in Hv.
Defined.

(** A key saved with the override flag "true" (in any letter case) wins
    over the environment: once [POST /set_keys] has stored a non-empty
    value under one of the known names, [get_api_key] returns that value
    for the name, whatever the environment holds, and sends nothing. *)
Theorem saved_key_overrides_environment (keys : gmap string string) (st : Store)
    (w : World) (key_name value flag : string) (websocket : bool) :
  keys !! "override_env" = Some flag →
  PyStr.lower flag = "true" →
  keys !! key_name = Some value →
  storable key_name = true →
  value ≠ "" →
  get_api_key (set_api_keys keys st).1 w key_name websocket = ([], Ok value).
Proof.
  intros Hflag Htrue Hkey Hstorable Hvalue%nonempty_true.
  unfold get_api_key. rewrite set_api_keys_lookup, Hstorable, Hkey.
  cbn [set_api_keys fst USER_OVERRIDE_ENV default]. rewrite Hflag.
  cbn [default id]. by rewrite Htrue, Hvalue.
Qed.

(** [saved_key_overrides_environment] against a Gemini key of the
    environment. *)
Lemma saved_key_overrides_environment_witness :
  let keys : gmap string string :=
    {[ "gemini_api_key" := "user-key"; "override_env" := "True" ]} in
  get_api_key (set_api_keys keys initial_store).1 keyed_world "gemini_api_key" true
  = ([], Ok "user-key").
Proof.
  intros keys.
  apply (saved_key_overrides_environment keys initial_store keyed_world
           "gemini_api_key" "user-key" "True" true);
    [reflexivity | reflexivity | reflexivity | reflexivity | discriminate].
Defined.

(** ** Settings *)

Lemma set_settings_store w settings st :
  store_after (set_settings w settings st)
  = {| USER_API_KEYS := USER_API_KEYS st; USER_OVERRIDE_ENV := USER_OVERRIDE_ENV st;
       USER_SETTINGS := settings ∪ USER_SETTINGS st; KNOWLEDGE_BASE := KNOWLEDGE_BASE st |}.
Proof. unfold set_settings. by destruct (settings_write w _). Qed.

Lemma set_settings_setting w settings st key dflt :
  setting (store_after (set_settings w settings st)) key dflt
  = match settings !! key with
    | Some v => v
    | None => setting st key dflt
    end.
Proof.
  rewrite set_settings_store. unfold setting. cbn [USER_SETTINGS].
  rewrite lookup_union.
  destruct (settings !! key), (USER_SETTINGS st !! key); reflexivity.
Qed.

(** [POST /set_settings] changes the settings in memory even when writing
    [settings.json] fails and the answer is an error: every key of the
    request then has the request's value, every other key keeps its own, and
    the user keys and the knowledge base are untouched. *)
Theorem set_settings_merges_before_writing (w : World) (settings : gmap string JValue)
    (st : Store) (e : Exn) :
  settings_write w (settings ∪ USER_SETTINGS st) = Some e →
  reply_of (set_settings w settings st) = error_reply e
  ∧ (∀ key v, settings !! key = Some v →
       USER_SETTINGS (store_after (set_settings w settings st)) !! key = Some v)
  ∧ (∀ key, settings !! key = None →
       USER_SETTINGS (store_after (set_settings w settings st)) !! key
       = USER_SETTINGS st !! key)
  ∧ USER_API_KEYS (store_after (set_settings w settings st)) = USER_API_KEYS st
  ∧ KNOWLEDGE_BASE (store_after (set_settings w settings st)) = KNOWLEDGE_BASE st.
Proof.
  intros Hfail. rewrite set_settings_store. cbn [USER_SETTINGS USER_API_KEYS KNOWLEDGE_BASE].
  split; [|repeat split].
  - unfold set_settings. cbn [USER_SETTINGS]. by rewrite Hfail.
  - intros key v Hkey. rewrite lookup_union, Hkey. by destruct (USER_SETTINGS st !! key).
  - intros key Hkey. rewrite lookup_union, Hkey. by destruct (USER_SETTINGS st !! key).
Qed.

(** [set_settings_merges_before_writing] when the disk is full. *)
Lemma set_settings_merges_before_writing_witness :
  let full := {| environ := ∅; tavily := tavily example_world;
                 gemini := gemini example_world; murf := murf example_world;
                 zapier_post := zapier_post example_world;
                 bridge_connect := None; bridge_stream := fun _ => None;
                 settings_write := fun _ => Some "No space left on device" |} in
  let settings : gmap string JValue := {[ "theme" := JStr "light" ]} in
  reply_of (set_settings full settings initial_store)
  = error_reply "No space left on device"
  ∧ USER_SETTINGS (store_after (set_settings full settings initial_store)) !! "theme"
    = Some (JStr "light").
Proof.
  intros full settings.
  destruct (set_settings_merges_before_writing full settings initial_store
              "No space left on device") as (H1 & H2 & _); [reflexivity|].
  split; [exact H1|]. by apply H2.
Defined.

#[local] Hint Extern 1 (Forall _ (trace (relay _ _))) =>
  apply relay_effects; intros; reflexivity : traces.

Lemma direct_branch_no_search st w cid original q key voice :
  Forall (fun e => is_search_request e = false)
    (trace (direct_branch st w cid original q key voice)).
Proof.
  unfold direct_branch, system_instruction, synthesize, send_to_zapier,
    save_chat_history, get_api_key.
  trace_tac.
Qed.

Lemma dispatcher_no_search st w cid transcript voice :
  truthy (setting st "enableSearch" (JBool true)) = false →
  Forall (fun e => is_search_request e = false)
    (trace (stream_gemini_response st w cid transcript voice)).
Proof.
  intros Hoff. unfold stream_gemini_response.
  apply Forall_trace_try; [|intros; trace_tac].
  destruct (negb _); [trace_tac|].
  apply Forall_trace_bind; [trace_tac|]. intros _.
  apply Forall_trace_bind; [unfold get_api_key; trace_tac|]. intros key.
  destruct (negb _); [trace_tac|].
  rewrite Hoff. cbn [andb]. apply direct_branch_no_search.
Qed.

(** Search can be switched off: once [POST /set_settings] has set
    ["enableSearch"] to a false value, no turn of the dispatcher makes a
    search request, whatever the query says and whether or not the settings
    file could be written. *)
Theorem search_disabled_makes_no_search_request (w0 w : World)
    (settings : gmap string JValue) (st : Store) (v : JValue)
    (cid transcript : string) (voice : bool) :
  settings !! "enableSearch" = Some v →
  truthy v = false →
  Forall (fun e => is_search_request e = false)
    (trace (stream_gemini_response (store_after (set_settings w0 settings st)) w
              cid transcript voice)).
Proof.
  intros Hset Hv. apply dispatcher_no_search.
  by rewrite set_settings_setting, Hset.
Qed.

(** [search_disabled_makes_no_search_request] on the query
    "search for weather today": it goes to the language model. *)
Lemma search_disabled_makes_no_search_request_witness :
  let settings : gmap string JValue := {[ "enableSearch" := JBool false ]} in
  let st := store_after (set_settings example_world settings initial_store) in
  Forall (fun e => is_search_request e = false)
    (trace (stream_gemini_response st keyed_world "1" "search for weather today" false))
  ∧ trace (stream_gemini_response st keyed_world "1" "search for weather today" false)
    = [Send (user_message "search for weather today" true);
       ModelRequest "g-key" Casual ["search for weather today"];
       SaveHistory "1" "search for weather today" "hi";
       Send (response "hi")].
Proof.
  intros settings st. split; [|vm_compute; reflexivity].
  apply (search_disabled_makes_no_search_request example_world keyed_world settings
           initial_store (JBool false)); reflexivity.
Defined.

(** ** Chat files: identifiers *)

















(** ** Chat files: the listing *)




(** ** Chat files: the history *)

(** What the dispatcher saves can be read back: when the chat has no file
    yet or its file holds a list, appending an exchange succeeds and
    [GET /chat_history] then returns the former entries followed by the new
    one, every other chat reading as before; when the file does not decode
    or holds something else than a list, nothing is written and the
    exchange is lost. *)
Theorem saved_exchange_is_read_back (dir : gmap string (option JValue))
    (timestamp cid user_query ai_response : string) :
  (∀ history,
     get_chat_history dir cid = Some (JArr history) →
     (append_history dir timestamp cid user_query ai_response).2 = true
     ∧ get_chat_history (append_history dir timestamp cid user_query ai_response).1 cid
       = Some (JArr (history ++ [history_entry timestamp user_query ai_response]))
     ∧ ∀ other, chat_file other ≠ chat_file cid →
         get_chat_history (append_history dir timestamp cid user_query ai_response).1 other
         = get_chat_history dir other)
  ∧ ((∀ history, get_chat_history dir cid ≠ Some (JArr history)) →
     append_history dir timestamp cid user_query ai_response = (dir, false)).
Proof.
  unfold get_chat_history, append_history. split.
  - intros history Hread.
    destruct (dir !! chat_file cid) as [[v|]|] eqn:Hfile; [| done |].
    + injection Hread as ->. cbn [fst snd]. rewrite lookup_insert_eq.
      repeat split. intros other Hother. by rewrite lookup_insert_ne.
    + injection Hread as <-. cbn [fst snd app]. rewrite lookup_insert_eq.
      repeat split. intros other Hother. by rewrite lookup_insert_ne.
  - intros Hbad.
    destruct (dir !! chat_file cid) as [[v|]|] eqn:Hfile; [| done |].
    + destruct v; try done. by specialize (Hbad l).
    + by specialize (Hbad []).
Qed.

(** [saved_exchange_is_read_back] on the second exchange of a chat. *)
Lemma saved_exchange_is_read_back_witness :
  let first := history_entry "2024-01-01T10:00:00" "hello" "hi" in
  let dir : gmap string (option JValue) := {[ "1.json" := Some (JArr [first]) ]} in
  get_chat_history (append_history dir "2024-01-01T10:01:00" "1" "bye" "see you").1 "1"
  = Some (JArr ([first] ++ [history_entry "2024-01-01T10:01:00" "bye" "see you"])).
Proof.
  intros first dir.
  destruct (saved_exchange_is_read_back dir "2024-01-01T10:01:00" "1" "bye" "see you")
    as [H _].
  by destruct (H [first] eq_refl) as (_ & Hread & _).
Defined.

(** ** Knowledge-base files *)

Lemma kb_set_names P name text kb :
  P name → Forall (fun d => P d.1) kb → Forall (fun d => P d.1) (kb_set name text kb).
Proof.
  intros Hname. induction 1 as [|[n t] kb Hn Hkb IH]; cbn [kb_set].
  - by repeat constructor.
  - destruct (String.eqb n name); constructor; done.
Qed.

Lemma kb_get_set name text kb : kb_get name (kb_set name text kb) = Some text.
Proof.
  induction kb as [|[n t] kb IH]; cbn [kb_set kb_get].
  - by rewrite String.eqb_refl.
  - destruct (String.eqb n name) eqn:Hn; cbn [kb_get]; [by rewrite String.eqb_refl|].
    by rewrite Hn.
Qed.

Lemma kb_get_set_other name other text kb :
  other ≠ name → kb_get other (kb_set name text kb) = kb_get other kb.
Proof.
  intros Hne. induction kb as [|[n t] kb IH]; cbn [kb_set kb_get].
  - by rewrite (proj2 (String.eqb_neq name other)) by congruence.
  - destruct (String.eqb_spec n name) as [->|Hn]; cbn [kb_get].
    + by rewrite !(proj2 (String.eqb_neq name other)) by congruence.
    + by rewrite IH.
Qed.

Lemma kb_set_order name text kb :
  (kb_set name text kb).*1
  = if bool_decide (name ∈ kb.*1) then kb.*1 else kb.*1 ++ [name].
Proof.
  induction kb as [|[n t] kb IH]; [done|]. cbn [kb_set].
  destruct (String.eqb_spec n name) as [->|Hn]; cbn [fmap list_fmap fst].
  - by rewrite bool_decide_eq_true_2 by (apply elem_of_cons; by left).
  - change (list_fmap _ _ fst ?l) with (l.*1). rewrite IH.
    destruct (bool_decide (name ∈ kb.*1)) eqn:Hin.
    + apply bool_decide_eq_true_1 in Hin.
      by rewrite bool_decide_eq_true_2 by (apply elem_of_cons; by right).
    + apply bool_decide_eq_false_1 in Hin.
      rewrite bool_decide_eq_false_2; [done|].
      intros [?|?]%elem_of_cons; [congruence | done].
Qed.

(** Whatever is uploaded and whatever the file system and the PDF reader
    do, the knowledge base only ever holds documents under sanitized names
    that end in [.pdf] or [.txt]: if that holds before [POST /upload], it
    holds afterwards. *)
Theorem upload_keeps_document_names (filename : string) (u : Upload) (st : Store) :
  Forall (fun d => document_name d.1) (KNOWLEDGE_BASE st) →
  Forall (fun d => document_name d.1) (KNOWLEDGE_BASE (upload_file filename u st).1.2).
Proof.
  intros Hkb. unfold upload_file.
  assert (Hsan : sanitize_filename (sanitize_filename filename) = sanitize_filename filename).
  { apply sanitize_filename_fixed, sanitize_filename_chars. }
  destruct (store_raises u); [done|].
  destruct (endswith ".pdf" _) eqn:Hpdf.
  - destruct (pdf_pages u) as [pages|e]; [|done].
    destruct (negb _); [done|].
    destruct (content_raises u); [done|]. cbn [fst snd KNOWLEDGE_BASE].
    apply (kb_set_names document_name); [|done]. split; [by left | done].
  - destruct (endswith ".txt" _) eqn:Htxt; [|done].
    destruct (utf8_text u) as [text|e]; [|done].
    destruct (content_raises u); [done|]. cbn [fst snd KNOWLEDGE_BASE].
    apply (kb_set_names document_name); [|done]. split; [by right | done].
Qed.

(** [upload_keeps_document_names] on an upload whose name holds a path and
    characters that are dropped. *)
Lemma upload_keeps_document_names_witness :
  KNOWLEDGE_BASE (upload_file "../a(1)/notes.txt" (plain_upload "to do") initial_store).1.2
  = [("..a1notes.txt", "to do")]
  ∧ Forall (fun d => document_name d.1)
      (KNOWLEDGE_BASE
         (upload_file "../a(1)/notes.txt" (plain_upload "to do") initial_store).1.2).
Proof.
  split; [vm_compute; reflexivity|].
  apply (upload_keeps_document_names "../a(1)/notes.txt" (plain_upload "to do")
           initial_store).
  constructor.
Defined.

(** A text file that uploads without trouble becomes a document of the
    knowledge base under its sanitized name: looking that name up gives the
    text, every other document is as before, a document of the same name is
    replaced in place and a new one goes last, and the answer carries a
    preview of at most 203 characters. *)
Theorem uploaded_text_is_stored (filename text : string) (u : Upload) (st : Store) :
  store_raises u = None → utf8_text u = Ok text → content_raises u = None →
  endswith ".pdf" (sanitize_filename filename) = false →
  endswith ".txt" (sanitize_filename filename) = true →
  let name := sanitize_filename filename in
  let after := upload_file filename u st in
  kb_get name (KNOWLEDGE_BASE after.1.2) = Some text
  ∧ (∀ other, other ≠ name →
       kb_get other (KNOWLEDGE_BASE after.1.2) = kb_get other (KNOWLEDGE_BASE st))
  ∧ (KNOWLEDGE_BASE after.1.2).*1
    = (if bool_decide (name ∈ (KNOWLEDGE_BASE st).*1) then (KNOWLEDGE_BASE st).*1
       else (KNOWLEDGE_BASE st).*1 ++ [name])
  ∧ after.1.1 = [name; name +:+ ".txt"]
  ∧ (String.length (extracted_text after.2) ≤ 203)%nat.
Proof.
  intros Hstore Htext Hcontent Hpdf Htxt name after. subst after name.
  unfold upload_file. rewrite Hstore, Hpdf, Htxt, Htext, Hcontent.
  cbn [fst snd KNOWLEDGE_BASE extracted_text].
  split; [apply kb_get_set|]. split; [intros; by apply kb_get_set_other|].
  split; [apply kb_set_order|]. split; [done|].
  unfold text_preview.
  assert (Htake : ∀ n s, (String.length (PyStr.take n s) ≤ n)%nat).
  { induction n as [|n IH]; intros [|c s]; cbn [PyStr.take String.length]; try lia.
    specialize (IH s). lia. }
  assert (Happ : ∀ a b, String.length (a +:+ b) = (String.length a + String.length b)%nat).
  { induction a as [|c a IH]; intros b; [done|].
    change (String c a +:+ b) with (String c (a +:+ b)). cbn. by rewrite IH. }
  rewrite Happ. specialize (Htake 200%nat text).
  destruct (_ <? _)%nat; cbn [String.length]; lia.
Qed.

(** [uploaded_text_is_stored] on a second version of a document. *)
Lemma uploaded_text_is_stored_witness :
  let st := two_documents "old notes" "report" in
  KNOWLEDGE_BASE (upload_file "notes.txt" (plain_upload "new notes") st).1.2
  = [("notes.txt", "new notes"); ("report.txt", "report")]
  ∧ kb_get "notes.txt"
      (KNOWLEDGE_BASE (upload_file "notes.txt" (plain_upload "new notes") st).1.2)
    = Some "new notes".
Proof.
  intros st. split; [vm_compute; reflexivity|].
  by destruct (uploaded_text_is_stored "notes.txt" "new notes" (plain_upload "new notes") st
                 eq_refl eq_refl eq_refl eq_refl eq_refl) as [H _].
Defined.

Lemma remove_all_stops remove_raises pre file post e :
  Forall (fun f => remove_raises f = None) pre →
  remove_raises file = Some e →
  remove_all remove_raises (pre ++ file :: post) = (pre, Some e).
Proof.
  intros Hpre Hfile. induction Hpre as [|f pre Hf _ IH]; cbn [app remove_all].
  - by rewrite Hfile.
  - by rewrite Hf, IH.
Qed.

Lemma remove_all_done remove_raises files :
  Forall (fun f => remove_raises f = None) files →
  remove_all remove_raises files = (files, None).
Proof.
  induction 1 as [|f files Hf _ IH]; cbn [remove_all]; [done|]. by rewrite Hf, IH.
Qed.

(** Clearing the knowledge base is not all-or-nothing: when the removal of
    a file raises, the files listed before it are already removed and those
    after it are not, the answer is the error, and the documents in memory
    are all still there; only when every removal succeeds is the knowledge
    base emptied. *)
Theorem clear_knowledge_base_stops_at_first_failure (pre post : list string)
    (file : string) (remove_raises : string → option Exn) (data : gmap string bool)
    (st : Store) (e : Exn) :
  data !! "clear" = Some true →
  Forall (fun f => remove_raises f = None) pre →
  (remove_raises file = Some e →
   clear_knowledge_base (pre ++ file :: post) remove_raises data st
   = (pre, st, error_reply e))
  ∧ (remove_raises file = None → Forall (fun f => remove_raises f = None) post →
     KNOWLEDGE_BASE
       (clear_knowledge_base (pre ++ file :: post) remove_raises data st).1.2 = []
     ∧ (clear_knowledge_base (pre ++ file :: post) remove_raises data st).1.1
       = pre ++ file :: post).
Proof.
  intros Hclear Hpre. unfold clear_knowledge_base. rewrite Hclear. cbn [default].
  split.
  - intros Hfile. by rewrite (remove_all_stops _ _ _ _ e).
  - intros Hfile Hpost. rewrite remove_all_done; [done|].
    apply Forall_app. split; [done|]. by constructor.
Qed.

(** [clear_knowledge_base_stops_at_first_failure] when the second of three
    files cannot be removed. *)
Lemma clear_knowledge_base_stops_at_first_failure_witness :
  let locked f := if String.eqb f "report.txt" then Some "Permission denied" else None in
  let st := two_documents "n" "r" in
  clear_knowledge_base (["notes.txt"] ++ "report.txt" :: ["report.txt.txt"]) locked
    {[ "clear" := true ]} st
  = (["notes.txt"], st, error_reply "Permission denied").
Proof.
  intros locked st.
  destruct (clear_knowledge_base_stops_at_first_failure ["notes.txt"] ["report.txt.txt"]
              "report.txt" locked {[ "clear" := true ]} st "Permission denied")
    as [H _]; [reflexivity | by repeat constructor |].
  by apply H.
Defined.
